(** * KeyMaker: the encrypted vault as a content store

    A shallow embedding of the vault code of KeyMaker ([vault.py],
    [wallet.py], [stats.py], [exporter.py], the API key frame of [gui.py],
    the wallet count of [wallet_manager.py] and the wallet dialogue of
    [console.py]) and the properties of its data-management contract.

    Layout: the Python runtime fragments the code relies on ([Py]), the
    archive library it calls ([pyzipper]), one module per Python class, the
    notions and the concrete values the statements use, then the lemmas.
    The claims of the specification are the theorems marked C1 to C10;
    further properties of the code are marked X1 to X22. *)

From Stdlib Require Import ZArith NArith List String Ascii Bool Lia.
From Stdlib Require Import Sorting.Sorted Sorting.Permutation Lists.Finite.
From Stdlib Require Strings.Byte DecimalString DecimalN DecimalPos.
Import ListNotations.

Local Open Scope string_scope.
Local Open Scope list_scope.

(* ===================================================================== *)
(** * Python runtime fragments *)
(* ===================================================================== *)

Module Py.

(** Exception classes that occur in the modelled code paths. *)
Inductive exn_class :=
| ValueError | RuntimeError | KeyError | BadZipFile | FileNotFoundError
| PermissionError | OSError | UnicodeEncodeError | UnicodeDecodeError.

(** An exception: its class and [str(e)].  Texts of exceptions raised by
    libraries are indicative; texts raised by the application are the
    source's f-strings. *)
Record exn := Exn { cls : exn_class; msg : string }.

(** Outcome of a call: a value, or a raised exception. *)
Inductive result (A : Type) :=
| Ok (a : A)
| Raise (e : exn).
Arguments Ok {A} a.
Arguments Raise {A} e.

Definition bind {A B} (r : result A) (k : A -> result B) : result B :=
  match r with
  | Ok a => k a
  | Raise e => Raise e
  end.

(** [try: r  except Exception as e: h e] *)
Definition try_except {A} (r : result A) (h : exn -> result A) : result A :=
  match r with
  | Ok a => Ok a
  | Raise e => h e
  end.

Definition raise {A} (c : exn_class) (m : string) : result A := Raise (Exn c m).

(** ** [str] methods used by the code, on 8-bit strings *)

Definition startswith (s p : string) : bool := String.prefix p s.

Fixpoint rev_string (s : string) : string :=
  match s with
  | EmptyString => EmptyString
  | String c s' => rev_string s' ++ String c EmptyString
  end.

Definition endswith (s p : string) : bool :=
  String.prefix (rev_string p) (rev_string s).

(** [s.replace(old, new)] for a non-empty [old]: every non-overlapping
    occurrence, scanning from the left.  [skip] counts the characters of the
    occurrence just replaced that are still to be dropped. *)
Fixpoint replace_from (skip : nat) (old new s : string) : string :=
  match s with
  | EmptyString => EmptyString
  | String c s' =>
      match skip with
      | S k => replace_from k old new s'
      | O =>
          if String.prefix old s
          then new ++ replace_from (String.length old - 1) old new s'
          else String c (replace_from O old new s')
      end
  end.

Definition replace (s old new : string) : string := replace_from O old new s.

(** Whitespace for [str.strip] and [int], on code points. *)
Definition isspace (c : N) : bool :=
  ((9 <=? c) && (c <=? 13) || (28 <=? c) && (c <=? 32)
   || (c =? 133) || (c =? 160) || (c =? 5760)
   || (8192 <=? c) && (c <=? 8202) || (c =? 8232) || (c =? 8233)
   || (c =? 8239) || (c =? 8287) || (c =? 12288))%N.

Fixpoint lstrip_list (l : list N) : list N :=
  match l with
  | c :: l' => if isspace c then lstrip_list l' else l
  | [] => []
  end.

Definition strip_list (l : list N) : list N :=
  rev (lstrip_list (rev (lstrip_list l))).

Definition codes (s : string) : list N := map N_of_ascii (list_ascii_of_string s).

(** ** [int(s)] on 8-bit strings

    Surrounding whitespace, an optional sign, then decimal digits with
    single underscores allowed between digits.  Integers are unbounded. *)

Definition digit_of (c : N) : option Z :=
  if ((48 <=? c) && (c <=? 57))%N then Some (Z.of_N c - 48)%Z else None.

(** [acc] is the value of the digits read so far; [after_digit] tells
    whether the previous character was a digit (an underscore must sit
    between two digits). *)
Fixpoint int_digits (l : list N) (acc : Z) (after_digit : bool) : option Z :=
  match l with
  | [] => if after_digit then Some acc else None
  | c :: l' =>
      match digit_of c with
      | Some d => int_digits l' (10 * acc + d)%Z true
      | None =>
          if ((c =? 95)%N && after_digit)%bool
          then match l' with
               | [] => None
               | _ => int_digits l' acc false
               end
          else None
      end
  end.

Definition int (s : string) : option Z :=
  match strip_list (codes s) with
  | [] => None
  | c :: l =>
      if (c =? 43)%N then int_digits l 0%Z false
      else if (c =? 45)%N then option_map Z.opp (int_digits l 0%Z false)
      else int_digits (c :: l) 0%Z false
  end.

(** ** [str(n)] / [f"{n}"] for an integer *)

Definition str_of_N (n : N) : string :=
  DecimalString.NilEmpty.string_of_uint (N.to_uint n).

Definition str_of_int (z : Z) : string :=
  match z with
  | Zneg p => "-" ++ str_of_N (Npos p)
  | _ => str_of_N (Z.to_N z)
  end.

(** [f"{n:0w}"]: zero padding on the left to width [w]. *)
Fixpoint zeros (n : nat) : string :=
  match n with
  | O => EmptyString
  | S n' => String "0" (zeros n')
  end.

Definition zfill (w : nat) (s : string) : string :=
  zeros (w - String.length s) ++ s.

(** ** Text and bytes

    A Python [str] holding arbitrary text is a list of code points; [bytes]
    is a list of bytes.  [str.encode("utf-8")] and the strict
    [bytes.decode("utf-8")] follow. *)

Definition text := list N.
Definition bytes := list Byte.byte.

Definition text_of_string (s : string) : text := codes s.

Definition is_surrogate (c : N) : bool := ((55296 <=? c) && (c <=? 57343))%N.

(** The code point is cut into groups of six bits: [c / 64] is [c >> 6]. *)
Definition encode_cp (c : N) : option (list N) :=
  (let c1 := c / 64 in
   let c2 := c1 / 64 in
   let c3 := c2 / 64 in
   if c <? 128 then Some [c]
   else if c <? 2048 then Some [192 + c1; 128 + c mod 64]
   else if c <? 65536 then
     if is_surrogate c then None
     else Some [224 + c2; 128 + c1 mod 64; 128 + c mod 64]
   else if c <? 1114112 then
     Some [240 + c3; 128 + c2 mod 64; 128 + c1 mod 64; 128 + c mod 64]
   else None)%N.

Fixpoint encode_list (t : text) : option (list N) :=
  match t with
  | [] => Some []
  | c :: t' =>
      match encode_cp c, encode_list t' with
      | Some bs, Some rest => Some (bs ++ rest)
      | _, _ => None
      end
  end.

Definition is_cont (b : N) : bool := ((128 <=? b) && (b <? 192))%N.

Fixpoint decode_list (l : list N) : option text :=
  match l with
  | [] => Some []
  | b0 :: l1 =>
      if (b0 <? 128)%N then option_map (cons b0) (decode_list l1)
      else if ((194 <=? b0) && (b0 <? 224))%N then
        match l1 with
        | b1 :: l2 =>
            if is_cont b1
            then option_map (cons ((b0 - 192) * 64 + (b1 - 128))%N)
                            (decode_list l2)
            else None
        | _ => None
        end
      else if ((224 <=? b0) && (b0 <? 240))%N then
        match l1 with
        | b1 :: b2 :: l3 =>
            let c := ((b0 - 224) * 4096 + (b1 - 128) * 64 + (b2 - 128))%N in
            if (is_cont b1 && is_cont b2 && (2048 <=? c)%N
                && negb (is_surrogate c))%bool
            then option_map (cons c) (decode_list l3)
            else None
        | _ => None
        end
      else if ((240 <=? b0) && (b0 <? 245))%N then
        match l1 with
        | b1 :: b2 :: b3 :: l4 =>
            let c := ((b0 - 240) * 262144 + (b1 - 128) * 4096
                      + (b2 - 128) * 64 + (b3 - 128))%N in
            if (is_cont b1 && is_cont b2 && is_cont b3
                && (65536 <=? c)%N && (c <? 1114112)%N)%bool
            then option_map (cons c) (decode_list l4)
            else None
        | _ => None
        end
      else None
  end.

Definition byte_of_N (n : N) : Byte.byte :=
  match Byte.of_N n with
  | Some b => b
  | None => Byte.x00
  end.

(** [t.encode("utf-8")]; [None] stands for [UnicodeEncodeError]. *)
Definition utf8_encode (t : text) : option bytes :=
  option_map (map byte_of_N) (encode_list t).

(** [b.decode("utf-8")]; [None] stands for [UnicodeDecodeError]. *)
Definition utf8_decode (b : bytes) : option text :=
  decode_list (map Byte.to_N b).

End Py.

(* ===================================================================== *)
(** * The archive library: [pyzipper.AESZipFile] *)
(* ===================================================================== *)

(** The observable behaviour of the AES zip container as the code uses it.
    An archive is the ordered list of its members; a name may occur more
    than once ([writestr] only warns), [namelist] lists every occurrence and
    access by name reaches the member written last.  Each member is
    encrypted under the password that was set when it was written; listing
    needs no password, reading a member needs that member's password.
    Member names are taken as stored (no NUL characters or OS separators). *)

Module pyzipper.
Import Py.

Record date_time := DateTime
  { year : N; month : N; day : N; hour : N; minute : N; second : N }.

Record member := Member
  { filename : string;       (* ZipInfo.filename *)
    info_date_time : date_time; (* ZipInfo.date_time *)
    key : string;            (* password the member is encrypted under *)
    content : bytes }.

Definition archive := list member.

(** What the path of a vault holds on disk. *)
Inductive file :=
| Missing
| NotZip
| Zip (a : archive).

(** Argument of [writestr]: a [str] (encoded as UTF-8) or [bytes]. *)
Inductive data :=
| Str (t : text)
| Bytes (b : bytes).

Definition namelist (a : archive) : list string := map filename a.

Definition named (name : string) (m : member) : bool := filename m =? name.

Definition getinfo (a : archive) (name : string) : result member :=
  match find (named name) (rev a) with
  | Some m => Ok m
  | None =>
      raise KeyError ("There is no item named '" ++ name ++ "' in the archive")
  end.

Definition read (a : archive) (pwd name : string) : result bytes :=
  bind (getinfo a name) (fun m =>
    if key m =? pwd then Ok (content m)
    else raise RuntimeError ("Bad password for file '" ++ name ++ "'")).

Definition encode_data (d : data) : result bytes :=
  match d with
  | Bytes b => Ok b
  | Str t =>
      match utf8_encode t with
      | Some b => Ok b
      | None => raise UnicodeEncodeError "'utf-8' codec can't encode character"
      end
  end.

Definition writestr (a : archive) (pwd : string) (now : date_time)
    (name : string) (d : data) : result archive :=
  bind (encode_data d) (fun b => Ok (a ++ [Member name now pwd b])).

Definition decode (b : bytes) : result text :=
  match utf8_decode b with
  | Some t => Ok t
  | None => raise UnicodeDecodeError "'utf-8' codec can't decode byte"
  end.

(** Mode ['r']. *)
Definition open_r (f : file) : result archive :=
  match f with
  | Zip a => Ok a
  | NotZip => raise BadZipFile "File is not a zip file"
  | Missing => raise FileNotFoundError "No such file or directory"
  end.

(** An archive opened for writing: the members so far, and whether closing
    it writes the directory back ([_didModify]). *)
Record handle := Handle { entries : archive; didModify : bool }.

(** Mode ['a']: an existing archive is extended; a missing file or a file
    that is not an archive starts a new, empty one. *)
Definition open_a (f : file) : handle :=
  match f with
  | Zip a => Handle a false
  | _ => Handle [] true
  end.

(** Mode ['w']: the file is truncated when it is opened. *)
Definition open_w : handle := Handle [] true.

Definition close (f : file) (h : handle) : file :=
  if didModify h then Zip (entries h) else f.

End pyzipper.

(* ===================================================================== *)
(** * [vault.py]: class [Vault] *)
(* ===================================================================== *)

Module Vault.
Import Py pyzipper.

Record t := { path : option string; password : option string }.

Definition __init__ : t := {| path := None; password := None |}.

Definition set_vault (self : t) (path password : string) : t :=
  {| path := Some path; password := Some password |}.

(** Python's [not x] for a value that is [None] or a string. *)
Definition not_ (x : option string) : bool :=
  match x with
  | None => true
  | Some s => s =? ""
  end.

Definition pwd (self : t) : string :=
  match password self with Some p => p | None => "" end.

Definition unset (self : t) : bool := not_ (path self) || not_ (password self).

Definition must_be_set : string := "Vault path and password must be set.".

Definition sentinel : string := "vault_initialized.txt".

Definition create_vault (self : t) (now : date_time) (f : file)
    : result unit * file :=
  if unset self then (raise ValueError must_be_set, f)
  else
    let h := open_w in
    match writestr (entries h) (pwd self) now sentinel
            (Str (text_of_string "Vault is encrypted and ready.")) with
    | Ok a => (Ok tt, close f (Handle a true))
    | Raise e =>
        (raise RuntimeError ("Error creating vault: " ++ msg e), close f h)
    end.

Definition validate_vault (self : t) (f : file) : result bool :=
  if unset self then raise ValueError must_be_set
  else
    try_except
      (bind (open_r f) (fun a =>
       bind (read a (pwd self) sentinel) (fun b =>
       bind (decode b) (fun _content => Ok true))))
      (fun e =>
         match cls e with
         | BadZipFile =>
             raise RuntimeError
               "Invalid or corrupted ZIP file. Please create a new vault."
         | _ => raise RuntimeError ("Error validating vault: " ++ msg e)
         end).

Definition list_vault_contents (self : t) (f : file) : result (list string) :=
  if unset self then raise ValueError must_be_set
  else
    try_except (bind (open_r f) (fun a => Ok (namelist a)))
      (fun e => raise RuntimeError ("Error reading vault contents: " ++ msg e)).

Definition mem (name : string) (l : list string) : bool :=
  existsb (String.eqb name) l.

(** The body of the [with] statement of [write_to_vault]: one attempt. *)
Definition write_attempt (self : t) (now : date_time) (file_name : string)
    (file_data : data) (f : file) : result unit * file :=
  let h := open_a f in
  if mem file_name (namelist (entries h))
  then (raise RuntimeError ("Duplicate file name: " ++ file_name), close f h)
  else
    match writestr (entries h) (pwd self) now file_name file_data with
    | Ok a => (Ok tt, close f (Handle a true))
    | Raise e => (Raise e, close f h)
    end.

(** [while retries > 0]: a [RuntimeError] uses up one retry, any other
    exception ends the loop at once. *)
Fixpoint write_loop (retries : nat) (self : t) (now : date_time)
    (file_name : string) (file_data : data) (f : file) : result unit * file :=
  match retries with
  | O => (Ok tt, f)
  | S retries' =>
      match write_attempt self now file_name file_data f with
      | (Ok _, f') => (Ok tt, f')
      | (Raise e, f') =>
          match cls e with
          | RuntimeError =>
              match retries' with
              | O =>
                  (raise RuntimeError
                     ("Failed to write to vault after 3 attempts: " ++ msg e),
                   f')
              | S _ => write_loop retries' self now file_name file_data f'
              end
          | _ =>
              (raise RuntimeError
                 ("Unexpected error during write: " ++ msg e), f')
          end
      end
  end.

Definition write_to_vault (self : t) (now : date_time) (file_name : string)
    (file_data : data) (f : file) : result unit * file :=
  if unset self then (raise ValueError must_be_set, f)
  else write_loop 3 self now file_name file_data f.

Definition extract_file (self : t) (file_name : string) (f : file)
    : result text :=
  if unset self then raise ValueError must_be_set
  else
    try_except
      (bind (open_r f) (fun a =>
       bind (read a (pwd self) file_name) decode))
      (fun e =>
         raise RuntimeError
           ("Error extracting file " ++ file_name ++ ": " ++ msg e)).

End Vault.

(* ===================================================================== *)
(** * [wallet.py]: class [Wallet] *)
(* ===================================================================== *)

Module Wallet.
Import Py pyzipper.

Record t := { vault_path : string; vault_password : string }.

(** The result of [Account.create_new]: only what [create_wallet] reads. *)
Record Account := { address : string; encrypted_key : bytes;
                    contract : option string (* contract.script.hex() *) }.

(** The document built by [create_wallet]. *)
Record contract_dict := { script : string;
                          parameters : list (string * string);
                          deployed : bool }.
Record account_dict := { acc_address : string; label : string; lock : bool;
                         acc_key : text; acc_contract : contract_dict;
                         acc_extra : option string; isDefault : bool }.
Record scrypt_params := { scrypt_n : Z; scrypt_r : Z; scrypt_p : Z }.
Record wallet_data := { name : string; version : string;
                        scrypt : scrypt_params;
                        accounts : list account_dict;
                        extra : option string }.

(** What [create_wallet] meets outside the program during one call. *)
Record env := {
  create_new : string -> result Account; (* Account.create_new(password=..) *)
  clock : date_time;         (* local time when the member is written *)
  others : file -> file;     (* writes of other processes to the vault file
                                between the listing and the append; the
                                identity under a single writer *)
  write_error : option exn;  (* I/O error met by the append, if any *)
  stamp : string;            (* datetime.now().strftime("%Y-%m-%d %H:%M:%S") *)
  ledger_error : option exn  (* error met by makedirs/open/write of the
                                ledger, if any *) }.

(** The vault file and the lines of the passphrase ledger [keys.csv]. *)
Record world := { vault : file; keys_csv : list string }.

Definition is_wallet_name (name : string) : bool :=
  startswith name "Matrix_User_" && endswith name ".json".

Definition list_wallets (self : t) (f : file) : result (list string) :=
  try_except
    (bind (open_r f) (fun a => Ok (filter is_wallet_name (namelist a))))
    (fun e => raise RuntimeError ("Error listing wallets in vault: " ++ msg e)).

(** [int(name.replace("Matrix_User_", "").replace(".json", ""))];
    [None] is the [ValueError] that the loop ignores. *)
Definition wallet_number (name : string) : option Z :=
  int (replace (replace name "Matrix_User_" "") ".json" "").

Definition step (highest_number : Z) (name : string) : Z :=
  match wallet_number name with
  | Some number =>
      if (number >? highest_number)%Z then number else highest_number
  | None => highest_number
  end.

Definition get_next_wallet_number (self : t) (f : file) : result Z :=
  bind (list_wallets self f) (fun wallet_names =>
    Ok (fold_left step wallet_names 0 + 1)%Z).

Definition keys_file : string := "F:/KeyMaker/keys.csv".

Definition record_passphrase (e : env) (wallet_name passphrase : string)
    (ledger : list string) : result unit * list string :=
  match ledger_error e with
  | None =>
      (Ok tt,
       ledger ++ [(wallet_name ++ "," ++ stamp e ++ "," ++ passphrase)%string])
  | Some x =>
      match cls x with
      | PermissionError =>
          (raise RuntimeError
             ("Permission issue: Unable to write to " ++ keys_file
              ++ ". Check file permissions."), ledger)
      | _ => (raise RuntimeError ("Error recording passphrase: " ++ msg x),
              ledger)
      end
  end.

Section Json.

(** [json.dumps] of the wallet document. *)
Variable json_dumps : wallet_data -> text.

Definition _write_to_vault (self : t) (e : env) (wallet_file : string)
    (wd : wallet_data) (f : file) : result unit * file :=
  let h := open_a f in
  match write_error e with
  | Some x =>
      (raise RuntimeError ("Error writing to vault: " ++ msg x), close f h)
  | None =>
      match writestr (entries h) (vault_password self) (clock e) wallet_file
              (Str (json_dumps wd)) with
      | Ok a => (Ok tt, close f (Handle a true))
      | Raise x =>
          (raise RuntimeError ("Error writing to vault: " ++ msg x), close f h)
      end
  end.

Definition build (wallet_name : string) (new_account : Account) (k : text)
    : wallet_data :=
  {| name := wallet_name;
     version := "1.0";
     scrypt := {| scrypt_n := 16384; scrypt_r := 8; scrypt_p := 8 |};
     accounts :=
       [ {| acc_address := address new_account;
            label := wallet_name;
            lock := false;
            acc_key := k;
            acc_contract :=
              {| script := match contract new_account with
                           | Some hex => hex
                           | None => ""
                           end;
                 parameters := [("signature", "Signature")];
                 deployed := false |};
            acc_extra := None;
            isDefault := true |} ];
     extra := None |}.

Definition failed {A} (x : exn) : result A :=
  raise RuntimeError ("Error creating wallet: " ++ msg x).

Definition create_wallet (self : t) (e : env) (passphrase : string)
    (w : world) : result string * world :=
  match get_next_wallet_number self (vault w) with
  | Raise x => (failed x, w)
  | Ok wallet_number =>
  match create_new e passphrase with
  | Raise x => (failed x, w)
  | Ok new_account =>
  let wallet_name := ("Matrix_User_" ++ str_of_int wallet_number)%string in
  let wallet_file := (wallet_name ++ ".json")%string in
  match decode (encrypted_key new_account) with
  | Raise x => (failed x, w)
  | Ok k =>
  match _write_to_vault self e wallet_file (build wallet_name new_account k)
          (others e (vault w)) with
  | (Raise x, f) => (failed x, {| vault := f; keys_csv := keys_csv w |})
  | (Ok _, f) =>
  match record_passphrase e wallet_file passphrase (keys_csv w) with
  | (Raise x, l) => (failed x, {| vault := f; keys_csv := l |})
  | (Ok _, l) => (Ok wallet_file, {| vault := f; keys_csv := l |})
  end end end end end.

(** [create_wallet] called once per environment of [es], as the console's
    creation loop does; the loop stops at the first exception.  Returns the
    names returned so far and the outcome. *)
Fixpoint create_wallets (self : t) (es : list env) (passphrase : string)
    (w : world) : list string * result unit * world :=
  match es with
  | [] => ([], Ok tt, w)
  | e :: es' =>
      match create_wallet self e passphrase w with
      | (Raise x, w') => ([], Raise x, w')
      | (Ok new_file, w') =>
          let '(names, r, w'') := create_wallets self es' passphrase w' in
          (new_file :: names, r, w'')
      end
  end.

End Json.

End Wallet.

(* ===================================================================== *)
(** * [stats.py]: class [StatsManager] *)
(* ===================================================================== *)

Module StatsManager.
Import Py pyzipper.

Record t := { vault_path : string; password : string }.

(** [datetime] applied to the six fields of [info.date_time]: raises
    [ValueError] outside the calendar. *)
Definition is_leap (y : N) : bool :=
  ((y mod 4 =? 0) && (negb (y mod 100 =? 0) || (y mod 400 =? 0)))%N.

Definition days_in_month (y m : N) : N :=
  (if m =? 2 then (if is_leap y then 29 else 28)
   else if (m =? 4) || (m =? 6) || (m =? 9) || (m =? 11) then 30
   else 31)%N.

Definition datetime (d : date_time) : result date_time :=
  if ((1 <=? year d) && (year d <=? 9999) && (1 <=? month d)
      && (month d <=? 12) && (1 <=? day d)
      && (day d <=? days_in_month (year d) (month d))
      && (hour d <=? 23) && (minute d <=? 59) && (second d <=? 59))%N
  then Ok d
  else raise ValueError "date value out of range".

(** [strftime("%Y-%m-%d")], the year on four digits. *)
Definition strftime (d : date_time) : string :=
  zfill 4 (str_of_N (year d)) ++ "-" ++ zfill 2 (str_of_N (month d))
  ++ "-" ++ zfill 2 (str_of_N (day d)).

(** [defaultdict(int)], keys in insertion order. *)
Definition counter := list (string * Z).

(** [d[k] += 1] *)
Fixpoint incr (k : string) (d : counter) : counter :=
  match d with
  | [] => [(k, 1%Z)]
  | (k', v) :: d' =>
      if k' =? k then (k', (v + 1)%Z) :: d' else (k', v) :: incr k d'
  end.

(** [d[k]] *)
Fixpoint get (d : counter) (k : string) : Z :=
  match d with
  | [] => 0%Z
  | (k', v) :: d' => if k' =? k then v else get d' k
  end.

Definition keys (d : counter) : list string := map fst d.

(** The [for name in zf.namelist()] loop. *)
Fixpoint count_loop (a : archive) (names : list string)
    (wallet_counts : counter) : result counter :=
  match names with
  | [] => Ok wallet_counts
  | name :: rest =>
      if endswith name ".json" then
        bind (getinfo a name) (fun info =>
        bind (datetime (info_date_time info)) (fun dt =>
        count_loop a rest (incr (strftime dt) wallet_counts)))
      else count_loop a rest wallet_counts
  end.

(** [sorted] on strings, ascending in the order of the code points. *)
Fixpoint insert (x : string) (l : list string) : list string :=
  match l with
  | [] => [x]
  | y :: l' => if String.leb x y then x :: l else y :: insert x l'
  end.

Fixpoint sorted (l : list string) : list string :=
  match l with
  | [] => []
  | x :: l' => insert x (sorted l')
  end.

(** [random.randint(lo, hi)]: [raw] is what the generator yields at this
    call; every value of [lo..hi] can come out. *)
Definition randint (raw lo hi : Z) : Z := (lo + raw mod (hi - lo + 1))%Z.

(** [[random.randint(0, vol) for vol in volumes]]; [rng i] is the raw value
    of the generator at its [i]-th call. *)
Fixpoint full_split (rng : nat -> Z) (i : nat) (volumes : list Z) : list Z :=
  match volumes with
  | [] => []
  | vol :: vs => randint (rng i) 0 vol :: full_split rng (S i) vs
  end.

Definition trend := (list string * list Z * list Z)%type.

Definition get_wallet_volume_trend (self : t) (rng : nat -> Z) (f : file)
    : trend :=
  match
    bind (open_r f) (fun a =>
    bind (count_loop a (namelist a) []) (fun wallet_counts =>
      let sorted_dates := sorted (keys wallet_counts) in
      let volumes := map (get wallet_counts) sorted_dates in
      let full_counts := full_split rng 0 volumes in
      let empty_counts :=
        map (fun vf => (fst vf - snd vf)%Z) (combine volumes full_counts) in
      Ok (sorted_dates, full_counts, empty_counts)))
  with
  | Ok r => r
  | Raise _ => ([], [], [])
  end.

End StatsManager.

(* ===================================================================== *)
(** * [gui.py]: [KeyMakerApp.save_api_keys] *)
(* ===================================================================== *)

Module KeyMakerApp.
Import Py pyzipper.

(** The fields [save_api_keys] reads; an entry widget is the text typed
    into it. *)
Record t := {
  morpheus_connected : bool;
  morpheus_wallet_zip_path : option string;
  morpheus_wallet_password : option string;
  api_keys_entries : list (string * text) }.

(** The dialog the method ends with. *)
Inductive messagebox :=
| showerror (title message : string)
| showinfo (title message : string).

Definition config_name : string := "api_keys.txt".

(** [f"{lbl_text}: {val}"] with [val = entry.get().strip()] *)
Definition line (item : string * text) : text :=
  text_of_string (fst item) ++ [58%N; 32%N] ++ strip_list (snd item).

(** ["\n".join(lines)] *)
Fixpoint join (lines : list text) : text :=
  match lines with
  | [] => []
  | [l] => l
  | l :: ls => l ++ [10%N] ++ join ls
  end.

Definition combined (self : t) : text := join (map line (api_keys_entries self)).

(** [old_files[name] = v] on a dict kept in insertion order. *)
Fixpoint setitem (name : string) (v : bytes) (d : list (string * bytes))
    : list (string * bytes) :=
  match d with
  | [] => [(name, v)]
  | (k, v') :: d' =>
      if k =? name then (k, v) :: d' else (k, v') :: setitem name v d'
  end.

(** First [with]: read every member except the config record. *)
Fixpoint read_old (a : archive) (pwd : string) (names : list string)
    (old_files : list (string * bytes)) : result (list (string * bytes)) :=
  match names with
  | [] => Ok old_files
  | name :: rest =>
      if negb (name =? config_name) then
        bind (read a pwd name) (fun b =>
          read_old a pwd rest (setitem name b old_files))
      else read_old a pwd rest old_files
  end.

(** Second [with]: the [i]-th [writestr] of the rewrite meets the I/O error
    [io i], if any.  Returns the outcome and the members written so far. *)
Fixpoint write_old (io : nat -> option exn) (i : nat) (pwd : string)
    (now : date_time) (items : list (string * bytes)) (a : archive)
    : result unit * archive :=
  match items with
  | [] => (Ok tt, a)
  | (name, b) :: rest =>
      match io i with
      | Some x => (Raise x, a)
      | None =>
          match writestr a pwd now name (Bytes b) with
          | Ok a' => write_old io (S i) pwd now rest a'
          | Raise x => (Raise x, a)
          end
      end
  end.

Definition rewrite (io : nat -> option exn) (pwd : string) (now : date_time)
    (old_files : list (string * bytes)) (new_text : text) (f : file)
    : result unit * file :=
  let h := open_w in
  match write_old io 0 pwd now old_files (entries h) with
  | (Raise x, a) => (Raise x, close f (Handle a true))
  | (Ok _, a) =>
      match io (List.length old_files) with
      | Some x => (Raise x, close f (Handle a true))
      | None =>
          match writestr a pwd now config_name (Str new_text) with
          | Ok a' => (Ok tt, close f (Handle a' true))
          | Raise x => (Raise x, close f (Handle a true))
          end
      end
  end.

Definition save_api_keys (self : t) (now : date_time)
    (io : nat -> option exn) (f : file) : messagebox * file :=
  match morpheus_connected self, morpheus_wallet_zip_path self,
        morpheus_wallet_password self with
  | true, Some (String _ _), Some (String c p) =>
      let pwd := String c p in
      match bind (open_r f) (fun a => read_old a pwd (namelist a) []) with
      | Raise x => (showerror "Error" ("Failed to save API keys: " ++ msg x), f)
      | Ok old_files =>
          match rewrite io pwd now old_files (combined self) f with
          | (Ok _, f') => (showinfo "Success" "API keys saved successfully.", f')
          | (Raise x, f') =>
              (showerror "Error" ("Failed to save API keys: " ++ msg x), f')
          end
      end
  | _, _, _ =>
      (showerror "Error"
         "Morpheus wallet not connected or missing zip path/password.", f)
  end.

End KeyMakerApp.

(* ===================================================================== *)
(** * [str] methods on text: [splitlines], [in], [split] *)
(* ===================================================================== *)

Module PyText.
Import Py.

(** The line boundaries of [str.splitlines]. *)
Definition is_linebreak (c : N) : bool :=
  ((10 <=? c) && (c <=? 13) || (28 <=? c) && (c <=? 30)
   || (c =? 133) || (c =? 8232) || (c =? 8233))%N.

(** [cur] holds, reversed, the characters of the line being read.  A
    boundary ends the line, a carriage return followed by a line feed counts
    as one boundary, and no empty line follows the last boundary. *)
Fixpoint splitlines_from (cur : text) (s : text) : list text :=
  match s with
  | [] => match cur with
          | [] => []
          | _ => [rev cur]
          end
  | c :: s' =>
      if is_linebreak c then
        rev cur ::
          match s' with
          | c' :: s'' =>
              if ((c =? 13) && (c' =? 10))%N then splitlines_from [] s''
              else splitlines_from [] s'
          | [] => []
          end
      else splitlines_from (c :: cur) s'
  end.

Definition splitlines (s : text) : list text := splitlines_from [] s.

(** [":" in line] *)
Definition has_colon (line : text) : bool := existsb (N.eqb 58) line.

(** [line.split(":", 1)] for a line that contains a colon: the text before
    the first colon and the text after it. *)
Fixpoint split_colon (line : text) : text * text :=
  match line with
  | [] => ([], [])
  | c :: l =>
      if (c =? 58)%N then ([], l)
      else let (before, after) := split_colon l in (c :: before, after)
  end.

Fixpoint text_eqb (a b : text) : bool :=
  match a, b with
  | [], [] => true
  | x :: a', y :: b' => (x =? y)%N && text_eqb a' b'
  | _, _ => false
  end.

End PyText.

(* ===================================================================== *)
(** * [gui.py]: [KeyMakerApp.show_api_key_frame] *)
(* ===================================================================== *)

Module ApiKeyFrame.
Import Py PyText pyzipper.

(** [k in self.api_keys_entries] *)
Definition has_key (k : text) (entries : list (string * text)) : bool :=
  existsb (fun item => text_eqb (text_of_string (fst item)) k) entries.

(** [entry.delete(0, tk.END); entry.insert(0, v)] on the entry of key [k]. *)
Fixpoint set_entry (k v : text) (entries : list (string * text))
    : list (string * text) :=
  match entries with
  | [] => []
  | (lbl, old) :: rest =>
      if text_eqb (text_of_string lbl) k then (lbl, v) :: rest
      else (lbl, old) :: set_entry k v rest
  end.

(** The body of the loop over the lines of [api_keys.txt]. *)
Definition load_line (entries : list (string * text)) (line : text)
    : list (string * text) :=
  if has_colon line then
    let (key_name, val) := split_colon line in
    let k := strip_list key_name in
    let v := strip_list val in
    if has_key k entries then set_entry k v entries else entries
  else entries.

(** The entries after [show_api_key_frame]; an exception is printed and
    leaves them as they were. *)
Definition show_api_key_frame (self : KeyMakerApp.t) (f : file)
    : list (string * text) :=
  let entries := KeyMakerApp.api_keys_entries self in
  match KeyMakerApp.morpheus_connected self,
        KeyMakerApp.morpheus_wallet_zip_path self,
        KeyMakerApp.morpheus_wallet_password self with
  | true, Some (String _ _), Some (String c p) =>
      match
        bind (open_r f) (fun a =>
          if Vault.mem KeyMakerApp.config_name (namelist a) then
            bind (read a (String c p) KeyMakerApp.config_name) (fun b =>
            bind (decode b) (fun data =>
              Ok (fold_left load_line (splitlines data) entries)))
          else Ok entries)
      with
      | Ok entries' => entries'
      | Raise _ => entries
      end
  | _, _, _ => entries
  end.

End ApiKeyFrame.

(* ===================================================================== *)
(** * [wallet_manager.py]: [WalletManager.update_wallet_count] *)
(* ===================================================================== *)

Module WalletManager.
Import Py pyzipper.

(** The value stored in [self.wallet_count]. *)
Definition update_wallet_count (f : file) : result Z :=
  try_except
    (bind (open_r f) (fun a =>
       Ok (Z.of_nat
             (List.length (filter Wallet.is_wallet_name (namelist a))))))
    (fun e => raise RuntimeError ("Error reading vault: " ++ msg e)).

End WalletManager.

(* ===================================================================== *)
(** * [wallet.py]: [Wallet.connect_morpheus_wallet] *)
(* ===================================================================== *)

Module Morpheus.
Import Py PyText pyzipper.

(** What [json.loads] returns.  A float is kept as whether it is zero, the
    only thing the code asks of one. *)
#[warnings="-register-all"] Inductive value :=
| JNull
| JBool (b : bool)
| JInt (z : Z)
| JFloat (zero : bool)
| JStr (t : text)
| JList (l : list value)
| JDict (items : list (text * value)).

(** [bool(v)] *)
Definition truthy (v : value) : bool :=
  match v with
  | JNull => false
  | JBool b => b
  | JInt z => negb (z =? 0)%Z
  | JFloat zero => negb zero
  | JStr t => match t with [] => false | _ => true end
  | JList l => match l with [] => false | _ => true end
  | JDict items => match items with [] => false | _ => true end
  end.

(** [d[k]] and [k in d] on a dict kept as a list of items. *)
Fixpoint lookup (k : text) (items : list (text * value)) : option value :=
  match items with
  | [] => None
  | (k', v) :: rest => if text_eqb k' k then Some v else lookup k rest
  end.

Fixpoint starts (p t : text) : bool :=
  match p, t with
  | [], _ => true
  | x :: p', y :: t' => (x =? y)%N && starts p' t'
  | _ :: _, [] => false
  end.

(** [p in t] on strings. *)
Fixpoint contains (p t : text) : bool :=
  starts p t || match t with
                | [] => false
                | _ :: t' => contains p t'
                end.

(** [type(v).__name__] *)
Definition type_name (v : value) : string :=
  match v with
  | JNull => "NoneType"
  | JBool _ => "bool"
  | JInt _ => "int"
  | JFloat _ => "float"
  | JStr _ => "str"
  | JList _ => "list"
  | JDict _ => "dict"
  end.

(** [v[0]]; a failure is the text of the exception. *)
Definition first (v : value) : string + value :=
  match v with
  | JList (x :: _) => inr x
  | JList [] => inl "list index out of range"
  | JStr (c :: _) => inr (JStr [c])
  | JStr [] => inl "string index out of range"
  | JDict _ => inl "0"
  | _ => inl ("'" ++ type_name v ++ "' object is not subscriptable")%string
  end.

(** ["address" in v] *)
Definition has_address (v : value) : string + bool :=
  match v with
  | JDict items =>
      inr (match lookup (text_of_string "address") items with
           | Some _ => true
           | None => false
           end)
  | JList l =>
      inr (existsb (fun x => match x with
                             | JStr t => text_eqb t (text_of_string "address")
                             | _ => false
                             end) l)
  | JStr t => inr (contains (text_of_string "address") t)
  | _ => inl ("argument of type '" ++ type_name v ++ "' is not iterable")%string
  end.

(** [v["address"]] *)
Definition address_of (v : value) : string + value :=
  match v with
  | JDict items =>
      match lookup (text_of_string "address") items with
      | Some x => inr x
      | None => inl "'address'"
      end
  | JList _ => inl "list indices must be integers or slices, not str"
  | JStr _ => inl "string indices must be integers, not 'str'"
  | _ => inl ("'" ++ type_name v ++ "' object is not subscriptable")%string
  end.

(** The checks on the loaded document, up to the [return]. *)
Definition checks (wallet_data : value) : string + (value * value) :=
  match wallet_data with
  | JDict items =>
      match lookup (text_of_string "accounts") items with
      | Some accounts =>
          if negb (truthy accounts)
          then inl "Public address not found in the Morpheus wallet data."
          else
            match first accounts with
            | inl m => inl m
            | inr account =>
                match has_address account with
                | inl m => inl m
                | inr false =>
                    inl "Public address not found in the Morpheus wallet data."
                | inr true =>
                    match address_of account with
                    | inl m => inl m
                    | inr public_address => inr (public_address, wallet_data)
                    end
                end
            end
      | None => inl "Invalid wallet data structure. No 'accounts' field."
      end
  | _ => inl "Invalid wallet data structure. No 'accounts' field."
  end.

Section Loads.

(** [json.loads]; a failure is the text of the exception. *)
Variable json_loads : text -> string + value.

(** The body of the [try]; a failure is the text of the exception that the
    [except] clause puts into its [RuntimeError]. *)
Definition attempt (f : file) (password : string)
    : string + (value * value) :=
  match open_r f with
  | Raise e => inl (msg e)
  | Ok a =>
      let wallet_files :=
        filter (fun n => endswith n ".json") (namelist a) in
      match wallet_files with
      | [name] =>
          match bind (read a password name) decode with
          | Raise e => inl (msg e)
          | Ok content =>
              match json_loads content with
              | inl m => inl m
              | inr wallet_data => checks wallet_data
              end
          end
      | _ => inl "Morpheus ZIP must contain exactly one .json wallet file."
      end
  end.

Definition connect_morpheus_wallet (f : file) (password : string)
    : result (value * value) :=
  match attempt f password with
  | inr r => Ok r
  | inl m => raise RuntimeError ("Error connecting to Morpheus wallet: " ++ m)
  end.

End Loads.

End Morpheus.

(* ===================================================================== *)
(** * [exporter.py]: class [WalletExporter] *)
(* ===================================================================== *)

Module WalletExporter.
Import Py PyText pyzipper Morpheus.

(** [v.get(key, default)]; a failure is the text of the exception. *)
Definition get (v : value) (key : string) (default : value)
    : string + value :=
  match v with
  | JDict items =>
      inr (match lookup (text_of_string key) items with
           | Some x => x
           | None => default
           end)
  | _ => inl ("'" ++ type_name v ++ "' object has no attribute 'get'")%string
  end.

(** [wallet_data.get('accounts', [{}])[0].get('address', 'Unknown Address')] *)
Definition public_address (wallet_data : value) : string + value :=
  match get wallet_data "accounts" (JList [JDict []]) with
  | inl m => inl m
  | inr accounts =>
      match first accounts with
      | inl m => inl m
      | inr account =>
          get account "address" (JStr (text_of_string "Unknown Address"))
      end
  end.

Section Environment.

(** [json.loads]; a failure is the text of the exception. *)
Variable json_loads : text -> string + value.

(** [str(v)] for a value that is not a string. *)
Variable str_other : value -> text.

(** What opening the output file for writing meets, if it fails. *)
Variable open_error : option string.

(** [f"{public_address}"] *)
Definition format (public_address : value) : text :=
  match public_address with
  | JStr t => t
  | _ => str_other public_address
  end.

(** [f"{wallet_name}: {public_address}\n"] *)
Definition line (wallet_name : string) (public_address : value) : text :=
  text_of_string wallet_name ++ [58%N; 32%N] ++ format public_address
  ++ [10%N].

(** The loop over the wallet files; [written] is what the output file holds
    so far.  A failure is the text of the exception. *)
Fixpoint export_loop (a : archive) (password : string)
    (wallet_files : list string) (written : text) : (string + unit) * text :=
  match wallet_files with
  | [] => (inr tt, written)
  | wallet_name :: rest =>
      match bind (read a password wallet_name) decode with
      | Raise e => (inl (msg e), written)
      | Ok raw_json =>
          match json_loads raw_json with
          | inl m => (inl m, written)
          | inr wallet_data =>
              match public_address wallet_data with
              | inl m => (inl m, written)
              | inr addr =>
                  match utf8_encode (line wallet_name addr) with
                  | None =>
                      (inl "'utf-8' codec can't encode character", written)
                  | Some _ =>
                      export_loop a password rest
                        (written ++ line wallet_name addr)
                  end
              end
          end
      end
  end.

Definition failed (m : string) : result unit :=
  raise RuntimeError ("Error exporting addresses: " ++ m).

(** [output] is what the output path holds, [None] when there is no such
    file; the progress callback is left out. *)
Definition export_addresses (password : string) (f : file)
    (output : option text) : result unit * option text :=
  match open_r f with
  | Raise e => (failed (msg e), output)
  | Ok a =>
      let wallet_files :=
        filter (fun name => endswith name ".json") (namelist a) in
      match wallet_files with
      | [] => (failed "No wallet files found in the vault.", output)
      | _ =>
          match open_error with
          | Some m => (failed m, output)
          | None =>
              match export_loop a password wallet_files [] with
              | (inr _, written) => (Ok tt, Some written)
              | (inl m, written) => (failed m, Some written)
              end
          end
      end
  end.

End Environment.

End WalletExporter.

(* ===================================================================== *)
(** * [console.py]: the wallet creation dialogue of [ConsoleWindow] *)
(* ===================================================================== *)

Module ConsoleWindow.
Import Py.

(** The fields the prompt handler reads and writes. *)
Record t := {
  wallet_creation_in_progress : bool;
  wallet_passphrase_in_progress : bool;
  pending_wallet_count : Z;
  current_passphrase : option text;
  cli_password_in_progress : bool;
  morpheus_unlocked : bool }.

Definition __init__ : t :=
  {| wallet_creation_in_progress := false;
     wallet_passphrase_in_progress := false;
     pending_wallet_count := 0;
     current_passphrase := None;
     cli_password_in_progress := false;
     morpheus_unlocked := false |}.

Definition request_wallet_creation (self : t) : t :=
  {| wallet_creation_in_progress := true;
     wallet_passphrase_in_progress := false;
     pending_wallet_count := 0;
     current_passphrase := None;
     cli_password_in_progress := cli_password_in_progress self;
     morpheus_unlocked := morpheus_unlocked self |}.

Definition reset_wallet_creation_state (self : t) : t :=
  {| wallet_creation_in_progress := false;
     wallet_passphrase_in_progress := false;
     pending_wallet_count := 0;
     current_passphrase := None;
     cli_password_in_progress := cli_password_in_progress self;
     morpheus_unlocked := morpheus_unlocked self |}.

(** What the handler goes on to call. *)
Inductive call :=
| returned
| execute_cli_password (password : text)
| create_wallets (count : Z) (passphrase : text)
| handle_flow1_input (user_input : text)
| respond_to_query (user_input : text).

Section Environment.

(** [int(user_input)]; [None] is its [ValueError]. *)
Variable int : text -> option Z.

(** What [self.log(message)] does to the fields: it assigns only
    [cli_password_in_progress] and [morpheus_unlocked] (itself, and through
    [_finalize_morpheus_connection] and [force_cli_stop]); which lines do so
    is decided on [message.lower()].  The pair is (password flag, unlocked
    flag). *)
Variable log : text -> bool * bool -> bool * bool.

Definition logged (message : text) (self : t) : t :=
  let flags := log message (cli_password_in_progress self,
                            morpheus_unlocked self) in
  {| wallet_creation_in_progress := wallet_creation_in_progress self;
     wallet_passphrase_in_progress := wallet_passphrase_in_progress self;
     pending_wallet_count := pending_wallet_count self;
     current_passphrase := current_passphrase self;
     cli_password_in_progress := fst flags;
     morpheus_unlocked := snd flags |}.

Definition _handle_wallet_creation_flow (self : t) (user_input : text)
    : t * call :=
  if wallet_passphrase_in_progress self then
    let self1 :=
      {| wallet_creation_in_progress := wallet_creation_in_progress self;
         wallet_passphrase_in_progress := false;
         pending_wallet_count := pending_wallet_count self;
         current_passphrase := Some user_input;
         cli_password_in_progress := cli_password_in_progress self;
         morpheus_unlocked := morpheus_unlocked self |} in
    let self2 :=
      logged (text_of_string
                "OPERATOR: Passphrase received. Proceeding with wallet creation...")
             self1 in
    (self2,
     create_wallets (pending_wallet_count self2) user_input)
  else
    match int user_input with
    | Some count =>
        if (count >? 0)%Z then
          let self1 :=
            {| wallet_creation_in_progress := wallet_creation_in_progress self;
               wallet_passphrase_in_progress := true;
               pending_wallet_count := count;
               current_passphrase := current_passphrase self;
               cli_password_in_progress := cli_password_in_progress self;
               morpheus_unlocked := morpheus_unlocked self |} in
          (logged (text_of_string
                     "OPERATOR: Please provide a passphrase for wallet encryption.")
                  self1, returned)
        else
          (logged (text_of_string "OPERATOR: Please specify a number > 0.")
                  self, returned)
    | None =>
        (logged (text_of_string
                   "OPERATOR: Invalid input. Please enter a numeric wallet count.")
                self, returned)
    end.

(** [raw] is [self.prompt_var.get()]. *)
Definition handle_prompt (self : t) (raw : text) : t * call :=
  let user_input := strip_list raw in
  match user_input with
  | [] => (self, returned)
  | _ =>
      let self1 := logged (text_of_string "USER: " ++ user_input) self in
      if cli_password_in_progress self1 then
        (self1, execute_cli_password user_input)
      else if wallet_creation_in_progress self1 then
        _handle_wallet_creation_flow self1 user_input
      else if negb (morpheus_unlocked self1) then
        (self1, handle_flow1_input user_input)
      else (self1, respond_to_query user_input)
  end.

End Environment.

End ConsoleWindow.

(* ===================================================================== *)
(** * Notions used in the statements *)
(* ===================================================================== *)

Import Py pyzipper.

(** The value of a digit sequence read from the left with accumulator. *)
Fixpoint uint_val (d : Decimal.uint) (acc : Z) : Z :=
  match d with
  | Decimal.Nil => acc
  | Decimal.D0 d => uint_val d (10 * acc + 0)
  | Decimal.D1 d => uint_val d (10 * acc + 1)
  | Decimal.D2 d => uint_val d (10 * acc + 2)
  | Decimal.D3 d => uint_val d (10 * acc + 3)
  | Decimal.D4 d => uint_val d (10 * acc + 4)
  | Decimal.D5 d => uint_val d (10 * acc + 5)
  | Decimal.D6 d => uint_val d (10 * acc + 6)
  | Decimal.D7 d => uint_val d (10 * acc + 7)
  | Decimal.D8 d => uint_val d (10 * acc + 8)
  | Decimal.D9 d => uint_val d (10 * acc + 9)
  end%Z.

(** The file name [create_wallet] builds for a wallet number. *)
Definition wallet_file_of (wallet_number : Z) : string :=
  (("Matrix_User_" ++ str_of_int wallet_number) ++ ".json")%string.

(** The ledger line of one creation. *)
Definition ledger_line (e : Wallet.env) (wallet_file passphrase : string)
    : string :=
  (wallet_file ++ "," ++ Wallet.stamp e ++ "," ++ passphrase)%string.

(** No other process writes to the vault file during the call. *)
Definition quiet (e : Wallet.env) : Prop := forall f, Wallet.others e f = f.

(** The highest wallet number in a vault file, as the loop of
    [get_next_wallet_number] computes it. *)
Definition highest (f : file) : Z :=
  match f with
  | Zip a =>
      fold_left Wallet.step (filter Wallet.is_wallet_name (namelist a)) 0%Z
  | _ => 0%Z
  end.

(** The members of a vault file; none when there is no archive. *)
Definition members (f : file) : archive :=
  match f with
  | Zip a => a
  | _ => []
  end.

(** [d.get(name)] on a dict kept as a list of items. *)
Fixpoint assoc (name : string) (d : list (string * bytes)) : option bytes :=
  match d with
  | [] => None
  | (k, v) :: d' => if k =? name then Some v else assoc name d'
  end.

(** The member [save_api_keys] writes for an item of [old_files]. *)
Definition rewritten (pwd : string) (now : date_time) (item : string * bytes)
    : member :=
  Member (fst item) now pwd (snd item).

(** The store is connected, under the non-empty password [pwd]. *)
Definition connected (self : KeyMakerApp.t) (pwd : string) : Prop :=
  KeyMakerApp.morpheus_connected self = true
  /\ (exists c p,
        KeyMakerApp.morpheus_wallet_zip_path self = Some (String c p))
  /\ KeyMakerApp.morpheus_wallet_password self = Some pwd
  /\ pwd <> "".

(** The day under which the loop counts a listed name: the date of the
    member [getinfo] returns for it. *)
Definition date_key (a : archive) (name : string) : option string :=
  match getinfo a name with
  | Ok info =>
      match StatsManager.datetime (info_date_time info) with
      | Ok dt => Some (StatsManager.strftime dt)
      | Raise _ => None
      end
  | Raise _ => None
  end.

Definition counted_on (a : archive) (k : string) (name : string) : bool :=
  endswith name ".json"
  && match date_key a name with
     | Some k' => k' =? k
     | None => false
     end.

(** A [.json] member stamped with day [k]. *)
Definition dated (k : string) (m : member) : bool :=
  endswith (filename m) ".json"
  && (StatsManager.strftime (info_date_time m) =? k).

Definition le_string (x y : string) : Prop := String.leb x y = true.
Definition lt_string (x y : string) : Prop := String.ltb x y = true.

(** The sum of a list of counts. *)
Definition sumZ (l : list Z) : Z := fold_right Z.add 0%Z l.

(** [name.endswith(".json")] *)
Definition is_json (name : string) : bool := endswith name ".json".

(** A text that [splitlines] keeps in one piece. *)
Definition one_line (t : text) : Prop :=
  Forall (fun c => PyText.is_linebreak c = false) t.

(** A label that a line of [api_keys.txt] gives back: no colon, no line
    boundary, no white space at either end. *)
Definition plain_label (lbl : string) : Prop :=
  PyText.has_colon (text_of_string lbl) = false
  /\ one_line (text_of_string lbl)
  /\ strip_list (text_of_string lbl) = text_of_string lbl.

(** An entry as [save_api_keys] writes it: the value stripped. *)
Definition stripped (item : string * text) : string * text :=
  (fst item, strip_list (snd item)).

(** The document [json.loads] gives back for what [json.dumps] wrote of a
    wallet: the dict [create_wallet] built. *)
Definition document (wd : Wallet.wallet_data) : Morpheus.value :=
  let str s := Morpheus.JStr (text_of_string s) in
  let key s := text_of_string s in
  let opt o := match o with
               | Some s => str s
               | None => Morpheus.JNull
               end in
  Morpheus.JDict
    [(key "name", str (Wallet.name wd));
     (key "version", str (Wallet.version wd));
     (key "scrypt",
      Morpheus.JDict
        [(key "n", Morpheus.JInt (Wallet.scrypt_n (Wallet.scrypt wd)));
         (key "r", Morpheus.JInt (Wallet.scrypt_r (Wallet.scrypt wd)));
         (key "p", Morpheus.JInt (Wallet.scrypt_p (Wallet.scrypt wd)))]);
     (key "accounts",
      Morpheus.JList
        (map (fun acc =>
           Morpheus.JDict
             [(key "address", str (Wallet.acc_address acc));
              (key "label", str (Wallet.label acc));
              (key "lock", Morpheus.JBool (Wallet.lock acc));
              (key "key", Morpheus.JStr (Wallet.acc_key acc));
              (key "contract",
               Morpheus.JDict
                 [(key "script",
                   str (Wallet.script (Wallet.acc_contract acc)));
                  (key "parameters",
                   Morpheus.JList
                     (map (fun p =>
                        Morpheus.JDict
                          [(key "name", str (fst p));
                           (key "type", str (snd p))])
                        (Wallet.parameters (Wallet.acc_contract acc))));
                  (key "deployed",
                   Morpheus.JBool
                     (Wallet.deployed (Wallet.acc_contract acc)))]);
              (key "extra", opt (Wallet.acc_extra acc));
              (key "isDefault", Morpheus.JBool (Wallet.isDefault acc))])
           (Wallet.accounts wd)));
     (key "extra", opt (Wallet.extra wd))].

(** [json.loads] reads what [json.dumps] wrote for the wallet that a
    creation in [e] on the vault [f] builds back as that wallet's
    document. *)
Definition reads_back (json_dumps : Wallet.wallet_data -> text)
    (json_loads : text -> string + Morpheus.value)
    (e : Wallet.env) (passphrase : string) (f : file) : Prop :=
  forall new_account k,
    Wallet.create_new e passphrase = Ok new_account ->
    decode (Wallet.encrypted_key new_account) = Ok k ->
    let wd :=
      Wallet.build ("Matrix_User_" ++ str_of_int (highest f + 1))%string
        new_account k in
    json_loads (json_dumps wd) = inr (document wd).

(** The lines of an export, one for each name with its address. *)
Definition export_lines (str_other : Morpheus.value -> text)
    (items : list (string * Morpheus.value)) : text :=
  List.concat
    (map (fun item => WalletExporter.line str_other (fst item) (snd item))
       items).

(** The address the export finds for a name of the archive. *)
Definition exported (json_loads : text -> string + Morpheus.value)
    (a : archive) (password : string) (item : string * Morpheus.value)
    : Prop :=
  exists raw_json wallet_data,
    bind (read a password (fst item)) decode = Ok raw_json
    /\ json_loads raw_json = inr wallet_data
    /\ WalletExporter.public_address wallet_data = inr (snd item).

(** What happens to a console: a line typed at the prompt; the command
    that opens the wallet dialogue; the end of a creation thread, which
    resets the dialogue; a line logged by another part of the program. *)
Inductive event :=
| Prompt (raw : text)
| RequestWalletCreation
| ThreadFinished
| Logged (message : text).

Definition step (int : text -> option Z)
    (log : text -> bool * bool -> bool * bool)
    (self : ConsoleWindow.t) (ev : event)
    : ConsoleWindow.t * ConsoleWindow.call :=
  match ev with
  | Prompt raw => ConsoleWindow.handle_prompt int log self raw
  | RequestWalletCreation =>
      (ConsoleWindow.logged log
         (text_of_string "OPERATOR: How many wallets would you like to create?")
         (ConsoleWindow.request_wallet_creation self),
       ConsoleWindow.returned)
  | ThreadFinished =>
      (ConsoleWindow.reset_wallet_creation_state self, ConsoleWindow.returned)
  | Logged message =>
      (ConsoleWindow.logged log message self, ConsoleWindow.returned)
  end.

(** The calls made along a sequence of events. *)
Fixpoint run (int : text -> option Z)
    (log : text -> bool * bool -> bool * bool)
    (self : ConsoleWindow.t) (evs : list event) : list ConsoleWindow.call :=
  match evs with
  | [] => []
  | ev :: evs' =>
      let (self', c) := step int log self ev in
      c :: run int log self' evs'
  end.

(** A batch of at least one wallet under a passphrase that is not empty and
    has no white space at its ends. *)
Definition sound_batch (c : ConsoleWindow.call) : Prop :=
  match c with
  | ConsoleWindow.create_wallets count passphrase =>
      (1 <= count)%Z /\ passphrase <> []
      /\ strip_list passphrase = passphrase
  | _ => True
  end.

(** A line whose logging leaves both flags as they are. *)
Definition leaves_flags (log : text -> bool * bool -> bool * bool)
    (message : text) : Prop :=
  forall flags, log message flags = flags.

(** The line [handle_prompt] logs for what was typed. *)
Definition user_line (raw : text) : text :=
  text_of_string "USER: " ++ strip_list raw.

Definition ask_passphrase_line : text :=
  text_of_string "OPERATOR: Please provide a passphrase for wallet encryption.".

Definition passphrase_received_line : text :=
  text_of_string
    "OPERATOR: Passphrase received. Proceeding with wallet creation...".

(** While the dialogue waits for the passphrase, the pending count is at
    least 1. *)
Definition waiting_sound (self : ConsoleWindow.t) : Prop :=
  ConsoleWindow.wallet_passphrase_in_progress self = true ->
  (1 <= ConsoleWindow.pending_wallet_count self)%Z.

(* ===================================================================== *)
(** * Concrete stores, environments and runs *)
(* ===================================================================== *)

Definition demo_store : Vault.t :=
  Vault.set_vault Vault.__init__ "vault.zip" "p@ss1".

Definition demo_time : date_time := DateTime 2025 1 5 10 30 0.

(** The vault right after [create_vault]. *)
Definition demo_vault : file :=
  snd (Vault.create_vault demo_store demo_time Missing).

Definition demo_dumps (wd : Wallet.wallet_data) : text :=
  text_of_string ("{name: " ++ Wallet.name wd ++ "}").

Definition demo_wallet : Wallet.t :=
  {| Wallet.vault_path := "vault.zip"; Wallet.vault_password := "p@ss1" |}.

Definition demo_account : Wallet.Account :=
  {| Wallet.address := "NXV7ZhHiyM1aHXwpVsRZC6BwNFP2jghXAq";
     Wallet.encrypted_key := map byte_of_N (codes "6PYKey");
     Wallet.contract := Some "0c21" |}.

(** A quiet environment in which everything outside the program works. *)
Definition demo_env : Wallet.env :=
  {| Wallet.create_new := fun _ => Ok demo_account;
     Wallet.clock := demo_time;
     Wallet.others := fun f => f;
     Wallet.write_error := None;
     Wallet.stamp := "2025-01-05 10:30:00";
     Wallet.ledger_error := None |}.

(** Another creator writes [Matrix_User_1.json] after the listing. *)
Definition racing_env : Wallet.env :=
  {| Wallet.create_new := fun _ => Ok demo_account;
     Wallet.clock := demo_time;
     Wallet.others := fun f =>
       Zip (members f
            ++ [Member "Matrix_User_1.json" demo_time "p@ss1" []]);
     Wallet.write_error := None;
     Wallet.stamp := "2025-01-05 10:30:00";
     Wallet.ledger_error := None |}.

(** The ledger cannot be written. *)
Definition locked_ledger_env : Wallet.env :=
  {| Wallet.create_new := fun _ => Ok demo_account;
     Wallet.clock := demo_time;
     Wallet.others := fun f => f;
     Wallet.write_error := None;
     Wallet.stamp := "2025-01-05 10:30:00";
     Wallet.ledger_error := Some (Exn PermissionError "Permission denied") |}.

(** The vault file cannot be written. *)
Definition full_disk_env : Wallet.env :=
  {| Wallet.create_new := fun _ => Ok demo_account;
     Wallet.clock := demo_time;
     Wallet.others := fun f => f;
     Wallet.write_error := Some (Exn OSError "No space left on device");
     Wallet.stamp := "2025-01-05 10:30:00";
     Wallet.ledger_error := None |}.

Definition demo_world : Wallet.world :=
  {| Wallet.vault := demo_vault; Wallet.keys_csv := [] |}.

Definition demo_run : list string * result unit * Wallet.world :=
  Wallet.create_wallets demo_dumps demo_wallet [demo_env; demo_env; demo_env]
    "walletpass" demo_world.

Definition demo_app : KeyMakerApp.t :=
  {| KeyMakerApp.morpheus_connected := true;
     KeyMakerApp.morpheus_wallet_zip_path := Some "vault.zip";
     KeyMakerApp.morpheus_wallet_password := Some "p@ss1";
     KeyMakerApp.api_keys_entries :=
       [("ChatGPT API Key", text_of_string "  sk-test ")] |}.

(** The labels of the API key frame. *)
Definition labels : list string :=
  ["ChatGPT API Key"; "Twitter Consumer Key"; "Twitter Consumer Secret";
   "Twitter Access Token"; "Twitter Access Token Secret"].

(** A connected application whose entries have been typed into. *)
Definition typed_app : KeyMakerApp.t :=
  {| KeyMakerApp.morpheus_connected := true;
     KeyMakerApp.morpheus_wallet_zip_path := Some "vault.zip";
     KeyMakerApp.morpheus_wallet_password := Some "p@ss1";
     KeyMakerApp.api_keys_entries :=
       combine labels
         [text_of_string "  sk-test "; text_of_string "ck:1";
          text_of_string ""; text_of_string "a b"; text_of_string "s3 "] |}.

(** The application after a restart: connected, the entries empty. *)
Definition blank_app : KeyMakerApp.t :=
  {| KeyMakerApp.morpheus_connected := true;
     KeyMakerApp.morpheus_wallet_zip_path := Some "vault.zip";
     KeyMakerApp.morpheus_wallet_password := Some "p@ss1";
     KeyMakerApp.api_keys_entries := map (fun l => (l, [])) labels |}.

(** A Morpheus archive: one wallet document. *)
Definition morpheus_zip : file :=
  Zip [Member "morpheus.json" demo_time "p@ss1"
         (map byte_of_N (codes "{accounts: [{address: NXV7}]}"))].

(** A [json.loads] that reads every text as the document of
    [morpheus_zip]. *)
Definition demo_loads (content : text) : string + Morpheus.value :=
  inr (Morpheus.JDict
         [(text_of_string "accounts",
           Morpheus.JList
             [Morpheus.JDict
                [(text_of_string "address",
                  Morpheus.JStr (text_of_string "NXV7"))]])]).

(** [int] on a text of ASCII characters. *)
Definition ascii_int (t : text) : option Z :=
  match strip_list t with
  | [] => None
  | c :: l =>
      if (c =? 43)%N then int_digits l 0%Z false
      else if (c =? 45)%N then option_map Z.opp (int_digits l 0%Z false)
      else int_digits (c :: l) 0%Z false
  end.

(** A log none of whose lines touches the flags. *)
Definition plain_log (message : text) (flags : bool * bool) : bool * bool :=
  flags.

(** A [json.loads] that reads every text as the document of the first
    wallet created in [demo_env]. *)
Definition first_wallet_loads (content : text) : string + Morpheus.value :=
  inr (document
         (Wallet.build "Matrix_User_1" demo_account
            (text_of_string "6PYKey"))).

(** [str] of a value that is not a string, left blank. *)
Definition blank_str (v : Morpheus.value) : text := [].

(** The vault after the three creations of [demo_run]. *)
Definition three_wallets : file := Wallet.vault (snd demo_run).

Definition no_fault (i : nat) : option exn := None.

(** The second write of the rewrite fails. *)
Definition fault_at_1 (i : nat) : option exn :=
  if Nat.eqb i 1 then Some (Exn OSError "No space left on device") else None.

(** The other records of [three_wallets], as the first block reads them. *)
Definition demo_old_files : list (string * bytes) :=
  match KeyMakerApp.read_old (members three_wallets) "p@ss1"
          (namelist (members three_wallets)) [] with
  | Ok d => d
  | Raise _ => []
  end.

Definition demo_stats : StatsManager.t :=
  {| StatsManager.vault_path := "vault.zip";
     StatsManager.password := "p@ss1" |}.

(** A vault with one [.json] record that is not a wallet. *)
Definition notes_only : file :=
  Zip [Member "notes.json" demo_time "p@ss1" []].

(** Two members of one name, written on different days. *)
Definition twice_named : archive :=
  [Member "Matrix_User_1.json" (DateTime 2025 1 5 10 30 0) "p@ss1" [];
   Member "Matrix_User_1.json" (DateTime 2025 1 6 9 0 0) "p@ss1" []].

(* ===================================================================== *)
(** * Properties *)
(* ===================================================================== *)

(** ** UTF-8: encoding then decoding, and back *)

Section Utf8.
Local Open Scope N_scope.

Lemma Some_inj {A} (x y : A) : Some x = Some y -> x = y.
Proof. congruence. Qed.

(** The equation of [decode_list] on a non-empty list, so that rewriting
    with it leaves the arithmetic alone. *)
Lemma decode_list_cons b0 l1 :
  decode_list (b0 :: l1) =
    if b0 <? 128 then option_map (cons b0) (decode_list l1)
    else if (194 <=? b0) && (b0 <? 224) then
      match l1 with
      | b1 :: l2 =>
          if is_cont b1
          then option_map (cons ((b0 - 192) * 64 + (b1 - 128)))
                          (decode_list l2)
          else None
      | _ => None
      end
    else if (224 <=? b0) && (b0 <? 240) then
      match l1 with
      | b1 :: b2 :: l3 =>
          let c := (b0 - 224) * 4096 + (b1 - 128) * 64 + (b2 - 128) in
          if (is_cont b1 && is_cont b2 && (2048 <=? c)
              && negb (is_surrogate c))%bool
          then option_map (cons c) (decode_list l3)
          else None
      | _ => None
      end
    else if (240 <=? b0) && (b0 <? 245) then
      match l1 with
      | b1 :: b2 :: b3 :: l4 =>
          let c := (b0 - 240) * 262144 + (b1 - 128) * 4096
                   + (b2 - 128) * 64 + (b3 - 128) in
          if (is_cont b1 && is_cont b2 && is_cont b3
              && (65536 <=? c) && (c <? 1114112))%bool
          then option_map (cons c) (decode_list l4)
          else None
      | _ => None
      end
    else None.
Proof. reflexivity. Qed.

Ltac split64 x :=
  let q := fresh "q" in
  let r := fresh "r" in
  pose proof (N.div_mod' x 64);
  pose proof (N.mod_lt x 64 ltac:(discriminate));
  generalize dependent (x mod 64); generalize dependent (x / 64);
  intros q r; intros.

Ltac decide_tests :=
  repeat match goal with
  | |- context [N.ltb ?a ?b] =>
      let H := fresh in
      destruct (N.ltb_spec a b) as [H|H];
      [try (exfalso; lia) | try (exfalso; lia)]; cbn [andb orb negb]
  | |- context [N.leb ?a ?b] =>
      let H := fresh in
      destruct (N.leb_spec a b) as [H|H];
      [try (exfalso; lia) | try (exfalso; lia)]; cbn [andb orb negb]
  end.

Lemma decode_encode_cp c bs rest :
  encode_cp c = Some bs ->
  decode_list (bs ++ rest) = option_map (cons c) (decode_list rest).
Proof.
  unfold encode_cp, is_surrogate; cbv zeta.
  destruct (N.ltb_spec c 128).
  { intros Heq; apply Some_inj in Heq; subst bs.
    cbn [app]. rewrite decode_list_cons. decide_tests. reflexivity. }
  destruct (N.ltb_spec c 2048).
  { intros Heq; apply Some_inj in Heq; subst bs.
    cbn [app]. rewrite decode_list_cons. unfold is_cont.
    split64 c. decide_tests. f_equal. f_equal. lia. }
  destruct (N.ltb_spec c 65536).
  { destruct (N.leb_spec 55296 c); destruct (N.leb_spec c 57343);
      cbn [andb]; try discriminate.
    all: intros Heq; apply Some_inj in Heq; subst bs.
    all: cbn [app]; rewrite decode_list_cons.
    all: unfold is_cont, is_surrogate; cbv zeta.
    all: split64 (c / 64); split64 c.
    all: decide_tests.
    all: f_equal; f_equal; lia. }
  destruct (N.ltb_spec c 1114112); [|discriminate].
  intros Heq; apply Some_inj in Heq; subst bs.
  cbn [app]; rewrite decode_list_cons; unfold is_cont; cbv zeta.
  split64 (c / 64 / 64); split64 (c / 64); split64 c.
  decide_tests. f_equal. f_equal. lia.
Qed.

Lemma decode_encode_list t : forall l,
  encode_list t = Some l -> decode_list l = Some t.
Proof.
  induction t as [|c t IH]; intros l; cbn [encode_list].
  - intros Heq; apply Some_inj in Heq; subst l. reflexivity.
  - destruct (encode_cp c) as [bs|] eqn:Ec; [|discriminate].
    destruct (encode_list t) as [rest|] eqn:Et; [|discriminate].
    intros Heq; apply Some_inj in Heq; subst l.
    rewrite (decode_encode_cp _ _ _ Ec), (IH _ eq_refl). reflexivity.
Qed.

(** Every byte value produced by the encoder fits a byte. *)
Lemma encode_cp_bytes c bs :
  encode_cp c = Some bs -> Forall (fun b => b < 256) bs.
Proof.
  unfold encode_cp, is_surrogate; cbv zeta.
  destruct (N.ltb_spec c 128).
  { intros Heq; apply Some_inj in Heq; subst bs.
    repeat constructor; lia. }
  destruct (N.ltb_spec c 2048).
  { intros Heq; apply Some_inj in Heq; subst bs.
    split64 c. repeat constructor; lia. }
  destruct (N.ltb_spec c 65536).
  { destruct (N.leb_spec 55296 c); destruct (N.leb_spec c 57343);
      cbn [andb]; try discriminate.
    all: intros Heq; apply Some_inj in Heq; subst bs.
    all: split64 (c / 64); split64 c; repeat constructor; lia. }
  destruct (N.ltb_spec c 1114112); [|discriminate].
  intros Heq; apply Some_inj in Heq; subst bs.
  split64 (c / 64 / 64); split64 (c / 64); split64 c.
  repeat constructor; lia.
Qed.

Lemma encode_list_bytes t : forall l,
  encode_list t = Some l -> Forall (fun b => b < 256) l.
Proof.
  induction t as [|c t IH]; intros l; cbn [encode_list].
  - intros Heq; apply Some_inj in Heq; subst l. constructor.
  - destruct (encode_cp c) as [bs|] eqn:Ec; [|discriminate].
    destruct (encode_list t) as [rest|] eqn:Et; [|discriminate].
    intros Heq; apply Some_inj in Heq; subst l.
    apply Forall_app; split; [eapply encode_cp_bytes; eauto | auto].
Qed.

Lemma to_N_byte_of_N n : n < 256 -> Byte.to_N (byte_of_N n) = n.
Proof.
  intros Hn. unfold byte_of_N.
  destruct (Byte.of_N n) as [b|] eqn:E.
  - apply Byte.to_of_N; assumption.
  - apply Byte.of_N_None_iff in E. lia.
Qed.

Lemma byte_of_N_to_N b : byte_of_N (Byte.to_N b) = b.
Proof. unfold byte_of_N. rewrite Byte.of_to_N. reflexivity. Qed.

Lemma map_to_N_byte_of_N l :
  Forall (fun b => b < 256) l -> map Byte.to_N (map byte_of_N l) = l.
Proof.
  induction 1 as [|b l Hb _ IH]; cbn [map]; [reflexivity|].
  rewrite to_N_byte_of_N, IH by assumption. reflexivity.
Qed.

(** [t.encode("utf-8").decode("utf-8") == t] *)
Lemma utf8_decode_encode t b :
  utf8_encode t = Some b -> utf8_decode b = Some t.
Proof.
  unfold utf8_encode, utf8_decode.
  destruct (encode_list t) as [l|] eqn:E; [|discriminate].
  cbn [option_map]. intros Heq; apply Some_inj in Heq; subst b.
  rewrite map_to_N_byte_of_N by (eapply encode_list_bytes; eauto).
  apply decode_encode_list; assumption.
Qed.

(** The converse: what the strict decoder accepts is re-encoded to the very
    same bytes. *)

Lemma shift64 a b :
  b < 64 -> (a * 64 + b) / 64 = a /\ (a * 64 + b) mod 64 = b.
Proof.
  intros Hb. replace (a * 64 + b) with (b + a * 64) by lia.
  rewrite N.div_add, N.Div0.mod_add by discriminate.
  rewrite N.div_small, N.mod_small by assumption. split; reflexivity.
Qed.

Lemma is_cont_range b : is_cont b = true -> 128 <= b /\ b - 128 < 64.
Proof.
  unfold is_cont. intros H; apply andb_true_iff in H as [H1 H2].
  apply N.leb_le in H1. apply N.ltb_lt in H2. lia.
Qed.

Lemma encode_decoded_2 b0 b1 :
  194 <= b0 -> b0 < 224 -> is_cont b1 = true ->
  encode_cp ((b0 - 192) * 64 + (b1 - 128)) = Some [b0; b1].
Proof.
  intros H0 H0' H1. apply is_cont_range in H1 as [H1 H1'].
  unfold encode_cp; cbv zeta.
  destruct (shift64 (b0 - 192) (b1 - 128) H1') as [-> ->].
  decide_tests. repeat f_equal; lia.
Qed.

Lemma encode_decoded_3 b0 b1 b2 :
  let c := (b0 - 224) * 4096 + (b1 - 128) * 64 + (b2 - 128) in
  224 <= b0 -> b0 < 240 -> is_cont b1 = true -> is_cont b2 = true ->
  2048 <= c -> is_surrogate c = false ->
  encode_cp c = Some [b0; b1; b2].
Proof.
  intros c H0 H0' H1 H2 Hc Hs.
  apply is_cont_range in H1 as [H1 H1'].
  apply is_cont_range in H2 as [H2 H2'].
  unfold encode_cp; cbv zeta. rewrite Hs.
  assert (Ec : c = ((b0 - 224) * 64 + (b1 - 128)) * 64 + (b2 - 128))
    by (unfold c; lia).
  destruct (shift64 ((b0 - 224) * 64 + (b1 - 128)) (b2 - 128) H2') as [E1 E2].
  rewrite <- Ec in E1, E2. rewrite E1, E2.
  destruct (shift64 (b0 - 224) (b1 - 128) H1') as [-> ->].
  decide_tests. repeat f_equal; lia.
Qed.

Lemma encode_decoded_4 b0 b1 b2 b3 :
  let c := (b0 - 240) * 262144 + (b1 - 128) * 4096
           + (b2 - 128) * 64 + (b3 - 128) in
  240 <= b0 -> b0 < 245 ->
  is_cont b1 = true -> is_cont b2 = true -> is_cont b3 = true ->
  65536 <= c -> c < 1114112 ->
  encode_cp c = Some [b0; b1; b2; b3].
Proof.
  intros c H0 H0' H1 H2 H3 Hc Hc'.
  apply is_cont_range in H1 as [H1 H1'].
  apply is_cont_range in H2 as [H2 H2'].
  apply is_cont_range in H3 as [H3 H3'].
  unfold encode_cp; cbv zeta.
  set (c2 := (b0 - 240) * 64 + (b1 - 128)).
  set (c1 := c2 * 64 + (b2 - 128)).
  assert (Ec : c = c1 * 64 + (b3 - 128)) by (unfold c, c1, c2; lia).
  destruct (shift64 c1 (b3 - 128) H3') as [E1 E2].
  rewrite <- Ec in E1, E2. rewrite E1, E2.
  destruct (shift64 c2 (b2 - 128) H2') as [E3 E4].
  fold c1 in E3, E4. rewrite E3, E4.
  destruct (shift64 (b0 - 240) (b1 - 128) H1') as [E5 E6].
  fold c2 in E5, E6. rewrite E5, E6.
  decide_tests. repeat f_equal; lia.
Qed.

Lemma encode_decode_list n : forall l t,
  (List.length l <= n)%nat -> decode_list l = Some t -> encode_list t = Some l.
Proof.
  induction n as [|n IH]; intros l t Hn.
  { destruct l; [|cbn in Hn; lia].
    cbn. intros Heq; apply Some_inj in Heq; subst t. reflexivity. }
  destruct l as [|b0 l1].
  { cbn. intros Heq; apply Some_inj in Heq; subst t. reflexivity. }
  rewrite decode_list_cons. cbn [List.length] in Hn.
  destruct (N.ltb_spec b0 128) as [Hb|Hb].
  { destruct (decode_list l1) as [t1|] eqn:E1; [|discriminate].
    cbn [option_map]. intros Heq; apply Some_inj in Heq; subst t.
    cbn [encode_list]. rewrite (IH l1 t1) by (auto; lia).
    unfold encode_cp; cbv zeta. apply N.ltb_lt in Hb. rewrite Hb.
    reflexivity. }
  destruct ((194 <=? b0) && (b0 <? 224))%bool eqn:T2.
  { apply andb_true_iff in T2 as [Ha Hb'].
    apply N.leb_le in Ha. apply N.ltb_lt in Hb'.
    destruct l1 as [|b1 l2]; [discriminate|].
    destruct (is_cont b1) eqn:C1; [|discriminate].
    destruct (decode_list l2) as [t2|] eqn:E2; [|discriminate].
    cbn [option_map]. intros Heq; apply Some_inj in Heq; subst t.
    cbn [encode_list]. cbn [List.length] in Hn.
    rewrite (IH l2 t2) by (auto; lia).
    rewrite encode_decoded_2 by assumption. reflexivity. }
  destruct ((224 <=? b0) && (b0 <? 240))%bool eqn:T3.
  { apply andb_true_iff in T3 as [Ha Hb'].
    apply N.leb_le in Ha. apply N.ltb_lt in Hb'.
    destruct l1 as [|b1 [|b2 l3]]; try discriminate.
    cbv zeta.
    match goal with |- context [if ?b then _ else _] => destruct b eqn:T end;
      [|discriminate].
    apply andb_true_iff in T as [T Hsur].
    apply andb_true_iff in T as [T Hlow].
    apply andb_true_iff in T as [C1 C2].
    destruct (decode_list l3) as [t3|] eqn:E3; [|discriminate].
    cbn [option_map]. intros Heq; apply Some_inj in Heq; subst t.
    cbn [encode_list]. cbn [List.length] in Hn.
    rewrite (IH l3 t3) by (auto; lia).
    rewrite encode_decoded_3; auto.
    - apply N.leb_le; assumption.
    - apply negb_true_iff; assumption. }
  destruct ((240 <=? b0) && (b0 <? 245))%bool eqn:T4; [|discriminate].
  apply andb_true_iff in T4 as [Ha Hb'].
  apply N.leb_le in Ha. apply N.ltb_lt in Hb'.
  destruct l1 as [|b1 [|b2 [|b3 l4]]]; try discriminate.
  cbv zeta.
  match goal with |- context [if ?b then _ else _] => destruct b eqn:T end;
    [|discriminate].
  apply andb_true_iff in T as [T Hhigh].
  apply andb_true_iff in T as [T Hlow].
  apply andb_true_iff in T as [T C3].
  apply andb_true_iff in T as [C1 C2].
  destruct (decode_list l4) as [t4|] eqn:E4; [|discriminate].
  cbn [option_map]. intros Heq; apply Some_inj in Heq; subst t.
  cbn [encode_list]. cbn [List.length] in Hn.
  rewrite (IH l4 t4) by (auto; lia).
  rewrite encode_decoded_4; auto.
  - apply N.leb_le; assumption.
  - apply N.ltb_lt; assumption.
Qed.

Lemma map_byte_of_N_to_N b : map byte_of_N (map Byte.to_N b) = b.
Proof.
  induction b as [|x b IH]; cbn [map]; [reflexivity|].
  rewrite byte_of_N_to_N, IH. reflexivity.
Qed.

(** [b.decode("utf-8").encode("utf-8") == b] whenever the decoding exists. *)
Lemma utf8_encode_decode b t :
  utf8_decode b = Some t -> utf8_encode t = Some b.
Proof.
  unfold utf8_encode, utf8_decode. intros H.
  rewrite (encode_decode_list _ _ _ (le_n _) H). cbn [option_map].
  rewrite map_byte_of_N_to_N. reflexivity.
Qed.

End Utf8.

(** ** The archive *)

Section Archive.

Lemma namelist_app a b : namelist (a ++ b) = namelist a ++ namelist b.
Proof. apply map_app. Qed.

(** Access by name reaches the member written last. *)
Lemma getinfo_last a m : getinfo (a ++ [m]) (filename m) = Ok m.
Proof.
  unfold getinfo. rewrite rev_app_distr. cbn [rev app find].
  unfold named at 1. rewrite String.eqb_refl. reflexivity.
Qed.

Lemma getinfo_other a m name :
  filename m <> name -> getinfo (a ++ [m]) name = getinfo a name.
Proof.
  intros Hne. unfold getinfo. rewrite rev_app_distr. cbn [rev app find].
  unfold named at 1. apply String.eqb_neq in Hne. rewrite Hne. reflexivity.
Qed.

Lemma find_named_In name l m :
  find (named name) l = Some m -> In m l /\ filename m = name.
Proof.
  intros H. apply find_some in H as [Hin Hn]. split; [assumption|].
  apply String.eqb_eq; assumption.
Qed.

Lemma getinfo_In a name m :
  getinfo a name = Ok m -> In m a /\ filename m = name.
Proof.
  unfold getinfo. destruct (find (named name) (rev a)) as [m'|] eqn:E.
  - intros [= <-]. apply find_named_In in E as [Hin Hn].
    split; [apply in_rev; assumption | assumption].
  - discriminate.
Qed.

(** Every listed name can be accessed. *)
Lemma getinfo_listed a name :
  In name (namelist a) -> exists m, getinfo a name = Ok m.
Proof.
  intros Hin. unfold getinfo.
  destruct (find (named name) (rev a)) as [m|] eqn:E; [eauto|].
  exfalso. apply in_map_iff in Hin as (m & Hm & Hin).
  apply in_rev in Hin. pose proof (find_none _ _ E m Hin) as Hf.
  unfold named in Hf. rewrite Hm, String.eqb_refl in Hf. discriminate.
Qed.

Lemma mem_In name l : Vault.mem name l = true <-> In name l.
Proof.
  unfold Vault.mem. rewrite existsb_exists. split.
  - intros (x & Hin & Heq). apply String.eqb_eq in Heq. subst; assumption.
  - intros Hin. exists name. split; [assumption | apply String.eqb_refl].
Qed.

End Archive.

(** ** [Vault.write_to_vault] and [Vault.extract_file] *)

Section VaultWrite.

Variables (self : Vault.t) (now : date_time) (name : string) (d : data).

(** A successful attempt appended exactly one member, encrypted under the
    store's password, holding the encoded payload. *)
Lemma write_attempt_ok f f' :
  Vault.write_attempt self now name d f = (Ok tt, f') ->
  exists b, encode_data d = Ok b /\
    f' = Zip (entries (open_a f) ++ [Member name now (Vault.pwd self) b]).
Proof.
  unfold Vault.write_attempt, writestr.
  destruct (Vault.mem name (namelist (entries (open_a f)))); [discriminate|].
  destruct (encode_data d) as [b|e]; cbn [bind]; [|discriminate].
  intros [= <-]. exists b. split; reflexivity.
Qed.

(** An attempt that raises [RuntimeError] met the duplicate check, and left
    the file as it was. *)
Lemma write_attempt_runtime_error f f' e :
  Vault.write_attempt self now name d f = (Raise e, f') ->
  cls e = RuntimeError ->
  f' = f /\ e = Exn RuntimeError ("Duplicate file name: " ++ name).
Proof.
  unfold Vault.write_attempt, writestr.
  destruct (Vault.mem name (namelist (entries (open_a f)))) eqn:Hm.
  - intros [= <- <-] _. split; [|reflexivity].
    destruct f; cbn in Hm |- *; try discriminate. reflexivity.
  - destruct d as [t|b]; cbn [encode_data bind]; [|discriminate].
    destruct (utf8_encode t); cbn [bind]; [discriminate|].
    intros [= <- <-]. discriminate.
Qed.

Lemma write_loop_ok n : forall f f',
  Vault.write_loop (S n) self now name d f = (Ok tt, f') ->
  Vault.write_attempt self now name d f = (Ok tt, f').
Proof.
  induction n as [|n IH]; intros f f'; cbn [Vault.write_loop].
  - destruct (Vault.write_attempt self now name d f) as [[[]|e] f0] eqn:E.
    + intros [= <-]. reflexivity.
    + destruct (cls e); discriminate.
  - destruct (Vault.write_attempt self now name d f) as [[[]|e] f0] eqn:E.
    + intros [= <-]. reflexivity.
    + destruct (cls e) eqn:Ec; try discriminate.
      destruct (write_attempt_runtime_error _ _ _ E Ec) as [-> _].
      intros H. apply IH in H. congruence.
Qed.

(** A duplicate fails every attempt, and the last failure is reported. *)
Lemma write_loop_duplicate n a :
  In name (namelist a) ->
  Vault.write_loop (S n) self now name d (Zip a) =
    (raise RuntimeError
       ("Failed to write to vault after 3 attempts: Duplicate file name: "
        ++ name), Zip a).
Proof.
  intros Hin. apply mem_In in Hin.
  induction n as [|n IH].
  - cbn [Vault.write_loop]. unfold Vault.write_attempt.
    cbn [open_a entries]. rewrite Hin. reflexivity.
  - change (Vault.write_loop (S (S n)) self now name d (Zip a))
      with (match Vault.write_attempt self now name d (Zip a) with
            | (Ok _, f') => (Ok tt, f')
            | (Raise e, f') =>
                match cls e with
                | RuntimeError =>
                    Vault.write_loop (S n) self now name d f'
                | _ => (raise RuntimeError
                          ("Unexpected error during write: " ++ msg e), f')
                end
            end).
    unfold Vault.write_attempt at 1. cbn [open_a entries]. rewrite Hin.
    cbn [raise cls close didModify]. exact IH.
Qed.

End VaultWrite.

Section VaultRoundTrip.

Lemma unset_write_to_vault self now name d f :
  Vault.unset self = true ->
  Vault.write_to_vault self now name d f =
    (raise ValueError Vault.must_be_set, f).
Proof. intros H. unfold Vault.write_to_vault. rewrite H. reflexivity. Qed.

(** What a successful [write_to_vault] leaves in the file. *)
Lemma write_to_vault_ok self now name d f f' :
  Vault.write_to_vault self now name d f = (Ok tt, f') ->
  Vault.unset self = false /\
  exists b, encode_data d = Ok b /\
    f' = Zip (entries (open_a f) ++ [Member name now (Vault.pwd self) b]).
Proof.
  unfold Vault.write_to_vault.
  destruct (Vault.unset self); [discriminate|].
  intros H. split; [reflexivity|].
  apply write_loop_ok in H. apply write_attempt_ok in H. exact H.
Qed.

(** [extract_file] on an archive whose last member is [name], written under
    the store's own password. *)
Lemma extract_file_last self name now b a :
  Vault.unset self = false ->
  Vault.extract_file self name
    (Zip (a ++ [Member name now (Vault.pwd self) b])) =
  match utf8_decode b with
  | Some t => Ok t
  | None =>
      raise RuntimeError
        ("Error extracting file " ++ name
         ++ ": 'utf-8' codec can't decode byte")
  end.
Proof.
  intros Hset. unfold Vault.extract_file. rewrite Hset.
  cbn [open_r bind]. unfold read.
  pose proof (getinfo_last a (Member name now (Vault.pwd self) b)) as Hg.
  cbn [filename] in Hg. rewrite Hg.
  cbn [bind key content]. rewrite String.eqb_refl.
  unfold decode. cbn [bind]. destruct (utf8_decode b); reflexivity.
Qed.




End VaultRoundTrip.

(** ** [Vault.validate_vault] under a wrong passphrase *)

Section Validate.

Lemma create_vault_ok self now f :
  Vault.unset self = false ->
  exists b,
    utf8_encode (text_of_string "Vault is encrypted and ready.") = Some b
    /\ Vault.create_vault self now f =
       (Ok tt, Zip [Member Vault.sentinel now (Vault.pwd self) b]).
Proof.
  intros Hset. unfold Vault.create_vault. rewrite Hset.
  eexists. split; [vm_compute; reflexivity|].
  vm_compute writestr. reflexivity.
Qed.

(** The passphrase a vault was created with validates it. *)
Lemma validate_after_create self now f :
  Vault.unset self = false ->
  Vault.validate_vault self (snd (Vault.create_vault self now f)) = Ok true.
Proof.
  intros Hset. destruct (create_vault_ok self now f Hset) as (b & Hb & ->).
  cbn [snd]. unfold Vault.validate_vault. rewrite Hset.
  pose proof (getinfo_last [] (Member Vault.sentinel now (Vault.pwd self) b))
    as Hg. cbn [app filename] in Hg.
  cbn [open_r bind]. unfold read. rewrite Hg.
  cbn [bind key content]. rewrite String.eqb_refl.
  unfold decode. cbn [bind]. rewrite (utf8_decode_encode _ _ Hb).
  reflexivity.
Qed.

(** Any other passphrase, on any store with a path, is refused. *)
Lemma validate_other_after_create self self' now f :
  Vault.unset self = false ->
  Vault.not_ (Vault.path self') = false ->
  Vault.pwd self' <> Vault.pwd self ->
  exists text,
    Vault.validate_vault self' (snd (Vault.create_vault self now f)) =
      raise (if Vault.not_ (Vault.password self')
             then ValueError else RuntimeError) text.
Proof.
  intros Hset Hpath Hne.
  destruct (create_vault_ok self now f Hset) as (b & _ & ->). cbn [snd].
  unfold Vault.validate_vault, Vault.unset. rewrite Hpath. cbn [orb].
  destruct (Vault.not_ (Vault.password self')); [eexists; reflexivity|].
  pose proof (getinfo_last [] (Member Vault.sentinel now (Vault.pwd self) b))
    as Hg. cbn [app filename] in Hg.
  cbn [open_r bind]. unfold read. rewrite Hg. cbn [bind key].
  destruct (String.eqb_spec (Vault.pwd self) (Vault.pwd self')) as [E|_];
    [congruence | eexists; reflexivity].
Qed.




End Validate.

(** ** Strings: prefixes, suffixes, [replace], [int] of a decimal *)

Section Strings.

Lemma append_nil_r s : (s ++ "")%string = s.
Proof. induction s as [|c s IH]; cbn; [reflexivity | rewrite IH; reflexivity]. Qed.

Lemma append_assoc s1 s2 s3 :
  ((s1 ++ s2) ++ s3)%string = (s1 ++ (s2 ++ s3))%string.
Proof.
  induction s1 as [|c s1 IH]; cbn; [reflexivity | rewrite IH; reflexivity].
Qed.

Lemma prefix_append p r : String.prefix p (p ++ r) = true.
Proof.
  induction p as [|c p IH]; cbn.
  - destruct r; reflexivity.
  - destruct (ascii_dec c c); [assumption | congruence].
Qed.

Lemma rev_string_append s1 s2 :
  rev_string (s1 ++ s2) = (rev_string s2 ++ rev_string s1)%string.
Proof.
  induction s1 as [|c s1 IH]; cbn.
  - rewrite append_nil_r. reflexivity.
  - rewrite IH, append_assoc. reflexivity.
Qed.

Lemma startswith_append p r : startswith (p ++ r) p = true.
Proof. apply prefix_append. Qed.

Lemma endswith_append s p : endswith (s ++ p) p = true.
Proof. unfold endswith. rewrite rev_string_append. apply prefix_append. Qed.

(** A pending skip drops exactly that many characters. *)
Lemma replace_from_skip old new s : forall k t,
  String.length s = k ->
  replace_from k old new (s ++ t) = replace_from 0 old new t.
Proof.
  induction s as [|c s IH]; intros k t Hk; cbn in Hk; subst k.
  - reflexivity.
  - cbn [append replace_from]. apply IH. reflexivity.
Qed.

(** An occurrence at the head is replaced. *)
Lemma replace_from_occurrence c old new t :
  replace_from 0 (String c old) new (String c old ++ t) =
  (new ++ replace_from 0 (String c old) new t)%string.
Proof.
  cbn [append].
  change (replace_from 0 (String c old) new (String c (old ++ t)))
    with (if String.prefix (String c old) (String c (old ++ t))
          then (new ++ replace_from (String.length (String c old) - 1)
                         (String c old) new (old ++ t))%string
          else String c (replace_from 0 (String c old) new (old ++ t))).
  pose proof (prefix_append (String c old) t) as Hp. cbn [append] in Hp.
  rewrite Hp. f_equal. apply replace_from_skip. cbn. lia.
Qed.

(** Characters that differ from the first one of [old] are copied. *)
Lemma replace_from_copy c old new s : forall t,
  Forall (fun ch => ch <> c) (list_ascii_of_string s) ->
  replace_from 0 (String c old) new (s ++ t) =
  (s ++ replace_from 0 (String c old) new t)%string.
Proof.
  induction s as [|a s IH]; intros t Hs; cbn [list_ascii_of_string] in Hs.
  - reflexivity.
  - inversion Hs as [|? ? Ha Hs']; subst.
    cbn [append].
    change (replace_from 0 (String c old) new (String a (s ++ t)))
      with (if String.prefix (String c old) (String a (s ++ t))
            then (new ++ replace_from (String.length (String c old) - 1)
                           (String c old) new (s ++ t))%string
            else String a (replace_from 0 (String c old) new (s ++ t))).
    cbn [String.prefix]. destruct (ascii_dec c a) as [E|_]; [congruence|].
    rewrite IH by assumption. reflexivity.
Qed.

(** Decimal digits, as printed. *)
Import Decimal DecimalString.

Lemma digits_not_space d :
  Forall (fun c => isspace c = false) (codes (NilEmpty.string_of_uint d)).
Proof.
  unfold codes.
  induction d; cbn [NilEmpty.string_of_uint list_ascii_of_string map];
    constructor; (reflexivity || assumption).
Qed.

Lemma lstrip_list_head l :
  match l with [] => True | c :: _ => isspace c = false end ->
  lstrip_list l = l.
Proof. destruct l as [|c l]; cbn; [reflexivity | intros ->; reflexivity]. Qed.

Lemma strip_list_no_space l :
  Forall (fun c => isspace c = false) l -> strip_list l = l.
Proof.
  intros H. unfold strip_list.
  rewrite (lstrip_list_head l) by (destruct H; auto).
  rewrite lstrip_list_head, rev_involutive; [reflexivity|].
  apply Forall_rev in H. destruct H; auto.
Qed.

Lemma int_digits_uint d : forall acc,
  int_digits (codes (NilEmpty.string_of_uint d)) acc true
  = Some (uint_val d acc).
Proof.
  induction d; intros acc; try reflexivity;
    cbn [NilEmpty.string_of_uint uint_val];
    match goal with
    | |- int_digits (codes (String ?c ?s)) _ _ = _ =>
        change (codes (String c s)) with (N_of_ascii c :: codes s)
    end;
    cbn [int_digits N_of_ascii]; cbv [digit_of]; cbn; apply IHd.
Qed.

Lemma uint_val_acc d : forall p,
  uint_val d (Zpos p) = Zpos (Pos.of_uint_acc d p).
Proof.
  induction d; intros p; cbn [uint_val Pos.of_uint_acc]; try reflexivity;
    rewrite <- IHd; f_equal; lia.
Qed.

Lemma uint_val_0 d : uint_val d 0 = Z.of_N (Pos.of_uint d).
Proof.
  induction d; cbn [uint_val Pos.of_uint]; try reflexivity;
    try assumption; apply (uint_val_acc d).
Qed.

(** [strip] removes whitespace only. *)
Lemma lstrip_list_decomp l :
  exists pre, l = pre ++ lstrip_list l
              /\ Forall (fun c => isspace c = true) pre.
Proof.
  induction l as [|c l (pre & E & Hpre)]; cbn [lstrip_list].
  - exists []. split; [reflexivity | constructor].
  - destruct (isspace c) eqn:Ec.
    + exists (c :: pre). split; [cbn; rewrite <- E; reflexivity|].
      constructor; assumption.
    + exists []. split; [reflexivity | constructor].
Qed.

Lemma strip_list_decomp l :
  exists pre post,
    l = pre ++ strip_list l ++ post
    /\ Forall (fun c => isspace c = true) pre
    /\ Forall (fun c => isspace c = true) post.
Proof.
  unfold strip_list.
  destruct (lstrip_list_decomp l) as (pre & E & Hpre).
  destruct (lstrip_list_decomp (List.rev (lstrip_list l))) as (post & E' & Hpost).
  exists pre, (List.rev post). split; [|split].
  - rewrite E at 1. f_equal.
    rewrite <- rev_app_distr, <- E', rev_involutive. reflexivity.
  - exact Hpre.
  - apply Forall_rev. exact Hpost.
Qed.

(** What [int] accepts is made of digits and underscores, after an optional
    sign and within whitespace. *)
Lemma int_digits_chars l : forall acc b n,
  int_digits l acc b = Some n ->
  Forall (fun c => digit_of c <> None \/ c = 95%N) l.
Proof.
  induction l as [|c l IH]; intros acc b n; cbn [int_digits].
  - constructor.
  - destruct (digit_of c) as [d|] eqn:Ed.
    + intros H. constructor; [left; congruence | eauto].
    + destruct (N.eqb_spec c 95) as [->|]; cbn [andb]; [|discriminate].
      destruct b; [|discriminate]. destruct l as [|c' l']; [discriminate|].
      intros H. constructor; [right; reflexivity | eauto].
Qed.

Lemma int_chars s n :
  Py.int s = Some n ->
  Forall (fun c => c <> 77%N /\ c <> 46%N) (codes s).
Proof.
  unfold Py.int. intros H.
  destruct (strip_list_decomp (codes s)) as (pre & post & E & Hpre & Hpost).
  assert (Hsp : forall l, Forall (fun c => isspace c = true) l ->
                          Forall (fun c => c <> 77%N /\ c <> 46%N) l).
  { intros l Hl. eapply Forall_impl; [|exact Hl]. cbv beta.
    intros c Hc. split; intros ->; discriminate. }
  assert (Hdg : forall l, Forall (fun c => digit_of c <> None \/ c = 95%N) l ->
                          Forall (fun c => c <> 77%N /\ c <> 46%N) l).
  { intros l Hl. eapply Forall_impl; [|exact Hl]. cbv beta.
    intros c [Hc| ->]; [|split; discriminate].
    split; intros ->; apply Hc; reflexivity. }
  rewrite E. apply Forall_app. split; [auto|].
  apply Forall_app. split; [|auto].
  destruct (strip_list (codes s)) as [|c l]; [constructor|].
  destruct (N.eqb_spec c 43) as [->|].
  { constructor; [split; discriminate|].
    apply Hdg. eapply int_digits_chars; eauto. }
  destruct (N.eqb_spec c 45) as [->|].
  { constructor; [split; discriminate|].
    destruct (int_digits l 0 false) eqn:Ei; [|discriminate].
    apply Hdg. eapply int_digits_chars; eauto. }
  apply Hdg. eapply int_digits_chars; eauto.
Qed.

Lemma codes_chars s (c0 : ascii) :
  Forall (fun c => c <> N_of_ascii c0) (codes s) ->
  Forall (fun ch => ch <> c0) (list_ascii_of_string s).
Proof.
  unfold codes. induction s as [|ch s IH];
    cbn [list_ascii_of_string map]; intros H; [constructor|].
  inversion H as [|? ? Hc Hs]; subst.
  constructor; [intros ->; apply Hc; reflexivity | auto].
Qed.

End Strings.

(** ** Wallet names and numbers *)

Section WalletNumbers.
Import Decimal DecimalString.

Lemma int_of_uint d :
  d <> Nil -> Py.int (NilEmpty.string_of_uint d) = Some (uint_val d 0).
Proof.
  intros Hd. unfold Py.int.
  rewrite strip_list_no_space by apply digits_not_space.
  destruct d; [congruence|..]; cbn [NilEmpty.string_of_uint];
    match goal with
    | |- context [codes (String ?c ?s)] =>
        change (codes (String c s)) with (N_of_ascii c :: codes s)
    end;
    cbn [N_of_ascii int_digits]; cbv [digit_of]; cbn;
    apply int_digits_uint.
Qed.

Lemma to_uint_not_Nil n : N.to_uint n <> Nil.
Proof.
  destruct n as [|p]; cbn; [discriminate|].
  apply DecimalPos.Unsigned.to_uint_nonnil.
Qed.

(** [int(str(n)) == n] *)
Lemma int_str_of_N n : Py.int (str_of_N n) = Some (Z.of_N n).
Proof.
  unfold str_of_N. rewrite int_of_uint by apply to_uint_not_Nil.
  rewrite uint_val_0. change (Pos.of_uint (N.to_uint n)) with
    (N.of_uint (N.to_uint n)).
  rewrite DecimalN.Unsigned.of_to. reflexivity.
Qed.

Lemma str_of_int_nonneg z : (0 <= z)%Z -> str_of_int z = str_of_N (Z.to_N z).
Proof. destruct z; cbn; intros; try reflexivity; lia. Qed.

End WalletNumbers.

Section WalletNames.

Lemma is_wallet_name_wallet_file n :
  Wallet.is_wallet_name (wallet_file_of n) = true.
Proof.
  unfold Wallet.is_wallet_name, wallet_file_of.
  rewrite endswith_append, append_assoc, startswith_append. reflexivity.
Qed.

(** A name of the shape [Matrix_User_<N>.json], with [<N>] an integer as
    [int] reads it, is a wallet name and its number is that integer. *)
Lemma wallet_number_shaped s n :
  Py.int s = Some n ->
  Wallet.is_wallet_name ("Matrix_User_" ++ s ++ ".json") = true
  /\ Wallet.wallet_number ("Matrix_User_" ++ s ++ ".json") = Some n.
Proof.
  intros Hn. split.
  - unfold Wallet.is_wallet_name.
    rewrite startswith_append, <- append_assoc, endswith_append. reflexivity.
  - pose proof (int_chars s n Hn) as Hc.
    assert (HM : Forall (fun ch => ch <> "M"%char) (list_ascii_of_string s)).
    { apply codes_chars. eapply Forall_impl; [|exact Hc].
      cbv beta. intros c [H _]. exact H. }
    assert (Hdot : Forall (fun ch => ch <> "."%char) (list_ascii_of_string s)).
    { apply codes_chars. eapply Forall_impl; [|exact Hc].
      cbv beta. intros c [_ H]. exact H. }
    unfold Wallet.wallet_number, replace.
    rewrite (replace_from_occurrence "M" "atrix_User_" "").
    cbn [append].
    rewrite (replace_from_copy "M" "atrix_User_" "" _ ".json" HM).
    change (replace_from 0 "Matrix_User_" "" ".json") with ".json".
    rewrite (replace_from_copy "." "json" "" _ ".json" Hdot).
    change (replace_from 0 ".json" "" ".json") with "".
    rewrite append_nil_r. exact Hn.
Qed.

Lemma int_str_of_int n : (0 <= n)%Z -> Py.int (str_of_int n) = Some n.
Proof.
  intros Hn. rewrite str_of_int_nonneg, int_str_of_N by assumption.
  f_equal. lia.
Qed.

(** The number is read back from the name the code builds. *)
Lemma wallet_number_wallet_file n :
  (0 <= n)%Z -> Wallet.wallet_number (wallet_file_of n) = Some n.
Proof.
  intros Hn. unfold wallet_file_of. rewrite append_assoc.
  apply wallet_number_shaped, int_str_of_int, Hn.
Qed.

(** The loop of [get_next_wallet_number] computes the largest parsed
    number, or its start value when none exceeds it. *)
Lemma fold_step_max names : forall h0,
  let r := fold_left Wallet.step names h0 in
  (h0 <= r)%Z
  /\ (forall name n, In name names ->
        Wallet.wallet_number name = Some n -> (n <= r)%Z)
  /\ (r = h0 \/ exists name,
        In name names /\ Wallet.wallet_number name = Some r).
Proof.
  induction names as [|x names IH]; intros h0; cbn [fold_left].
  - cbv zeta. split; [lia|]. split; [intros ? ? []| left; reflexivity].
  - specialize (IH (Wallet.step h0 x)). cbv zeta in IH |- *.
    destruct IH as (Hle & Hub & Hatt).
    assert (Hstep : (h0 <= Wallet.step h0 x)%Z
                    /\ (forall n, Wallet.wallet_number x = Some n ->
                                  (n <= Wallet.step h0 x)%Z)
                    /\ (Wallet.step h0 x = h0
                        \/ Wallet.wallet_number x = Some (Wallet.step h0 x))).
    { unfold Wallet.step. destruct (Wallet.wallet_number x) as [n|].
      - destruct (Z.gtb_spec n h0).
        + split; [lia|]. split; [intros ? [= <-]; lia | right; reflexivity].
        + split; [lia|]. split; [intros ? [= <-]; lia | left; reflexivity].
      - split; [lia|]. split; [discriminate | left; reflexivity]. }
    destruct Hstep as (H1 & H2 & H3).
    split; [lia|]. split.
    + intros name n [<-|Hin] Hn; [specialize (H2 _ Hn); lia | eauto].
    + destruct Hatt as [Hr|(name & Hin & Hn)].
      * destruct H3 as [E|E]; [left; congruence|].
        right. exists x. split; [left; reflexivity | congruence].
      * right. exists name. split; [right; assumption | assumption].
Qed.

Lemma fold_step_app names name h0 :
  fold_left Wallet.step (names ++ [name]) h0 =
  Wallet.step (fold_left Wallet.step names h0) name.
Proof. rewrite fold_left_app. reflexivity. Qed.

Lemma list_wallets_Zip self f names :
  Wallet.list_wallets self f = Ok names ->
  exists a, f = Zip a /\ names = filter Wallet.is_wallet_name (namelist a).
Proof.
  unfold Wallet.list_wallets. destruct f as [| |a]; cbn; try discriminate.
  intros [= <-]. eauto.
Qed.

End WalletNames.

(** ** [Wallet.create_wallet] *)

Section CreateWallet.

Variable json_dumps : Wallet.wallet_data -> text.

Local Abbreviation _write_to_vault := (Wallet._write_to_vault json_dumps).
Local Abbreviation create_wallet := (Wallet.create_wallet json_dumps).
Local Abbreviation create_wallets := (Wallet.create_wallets json_dumps).

(** A successful append adds one member at the end, whatever the names
    already present. *)
Lemma _write_to_vault_ok self e wallet_file wd f f' :
  _write_to_vault self e wallet_file wd f = (Ok tt, f') ->
  Wallet.write_error e = None /\
  exists b, utf8_encode (json_dumps wd) = Some b /\
    f' = Zip (entries (open_a f)
              ++ [Member wallet_file (Wallet.clock e)
                    (Wallet.vault_password self) b]).
Proof.
  unfold Wallet._write_to_vault, writestr, encode_data.
  destruct (Wallet.write_error e); [discriminate|].
  destruct (utf8_encode (json_dumps wd)) as [b|]; cbn [bind]; [|discriminate].
  intros [= <-]. split; [reflexivity|]. exists b. split; reflexivity.
Qed.

Lemma _write_to_vault_raises self e wallet_file wd f r f' x :
  _write_to_vault self e wallet_file wd f = (r, f') ->
  Wallet.write_error e = Some x ->
  r = raise RuntimeError ("Error writing to vault: " ++ msg x)
  /\ f' = close f (open_a f).
Proof.
  unfold Wallet._write_to_vault. intros H Hx. rewrite Hx in H.
  injection H as <- <-. split; reflexivity.
Qed.

(** What a successful [create_wallet] did. *)
Lemma create_wallet_ok self e passphrase w new_file w' :
  create_wallet self e passphrase w = (Ok new_file, w') ->
  exists a b,
    Wallet.vault w = Zip a
    /\ new_file =
       wallet_file_of
         (fold_left Wallet.step
            (filter Wallet.is_wallet_name (namelist a)) 0 + 1)%Z
    /\ Wallet.vault w' =
       Zip (entries (open_a (Wallet.others e (Wallet.vault w)))
            ++ [Member new_file (Wallet.clock e)
                  (Wallet.vault_password self) b])
    /\ Wallet.keys_csv w' =
       Wallet.keys_csv w ++ [ledger_line e new_file passphrase].
Proof.
  unfold Wallet.create_wallet, Wallet.get_next_wallet_number.
  destruct (Wallet.list_wallets self (Wallet.vault w)) as [names|x] eqn:El;
    cbn [bind]; [|discriminate].
  apply list_wallets_Zip in El as (a & Ea & ->).
  destruct (Wallet.create_new e passphrase) as [acct|x]; [|discriminate].
  destruct (decode (Wallet.encrypted_key acct)) as [k|x]; [|discriminate].
  match goal with
  | |- context [Wallet._write_to_vault _ ?s ?e ?n ?wd ?f] =>
      destruct (Wallet._write_to_vault json_dumps s e n wd f)
        as [[[]|x] f1] eqn:Ew
  end; [|discriminate].
  apply _write_to_vault_ok in Ew as (_ & b & _ & ->).
  unfold Wallet.record_passphrase.
  destruct (Wallet.ledger_error e) as [x|].
  { destruct (cls x); discriminate. }
  intros [= <- <-]. exists a, b. cbn [Wallet.vault Wallet.keys_csv].
  repeat split; try assumption; reflexivity.
Qed.

Lemma highest_nonneg f : (0 <= highest f)%Z.
Proof.
  destruct f as [| |a]; cbn [highest]; try lia.
  apply (fold_step_max (filter Wallet.is_wallet_name (namelist a)) 0%Z).
Qed.

Lemma get_next_wallet_number_Zip self a :
  Wallet.get_next_wallet_number self (Zip a) = Ok (highest (Zip a) + 1)%Z.
Proof. reflexivity. Qed.

(** Under a single writer a successful call takes the number after the
    highest one and becomes the highest itself. *)
Lemma create_wallet_next self e passphrase w new_file w' :
  quiet e ->
  create_wallet self e passphrase w = (Ok new_file, w') ->
  new_file = wallet_file_of (highest (Wallet.vault w) + 1)
  /\ highest (Wallet.vault w') = (highest (Wallet.vault w) + 1)%Z
  /\ exists a', Wallet.vault w' = Zip a'.
Proof.
  intros Hq H. apply create_wallet_ok in H as (a & b & Ea & En & Ev & _).
  rewrite Hq, Ea in Ev. cbn [open_a entries] in Ev.
  rewrite Ea. cbn [highest] in *. split; [assumption|].
  split; [|eauto]. rewrite Ev. cbn [highest].
  rewrite namelist_app, filter_app. cbn [namelist map filter filename].
  rewrite En at 1. rewrite is_wallet_name_wallet_file, fold_step_app.
  pose proof (highest_nonneg (Zip a)) as Hh. cbn [highest] in Hh.
  unfold Wallet.step at 1. rewrite En.
  rewrite wallet_number_wallet_file by lia.
  destruct (Z.gtb_spec
              (fold_left Wallet.step
                 (filter Wallet.is_wallet_name (namelist a)) 0 + 1)
              (fold_left Wallet.step
                 (filter Wallet.is_wallet_name (namelist a)) 0))%Z;
    [reflexivity | lia].
Qed.

(** The names of a run of successful creations. *)
Lemma create_wallets_names self passphrase : forall es w names w',
  Forall quiet es ->
  create_wallets self es passphrase w = (names, Ok tt, w') ->
  names = map (fun i => wallet_file_of
                          (highest (Wallet.vault w) + Z.of_nat i))
              (seq 1 (List.length es))
  /\ highest (Wallet.vault w') =
     (highest (Wallet.vault w) + Z.of_nat (List.length es))%Z
  /\ ((exists a, Wallet.vault w = Zip a) ->
      exists a', Wallet.vault w' = Zip a').
Proof.
  induction es as [|e es IH]; intros w names w' Hq; cbn [Wallet.create_wallets].
  - intros [= <- <-]. cbn. split; [reflexivity|]. split; [lia | auto].
  - inversion Hq as [|? ? He Hes]; subst.
    destruct (create_wallet self e passphrase w) as [[new_file|x] w1] eqn:E1;
      [|discriminate].
    destruct (create_wallets self es passphrase w1) as [[names1 r] w2] eqn:E2.
    intros [= <- -> <-].
    destruct (create_wallet_next _ _ _ _ _ _ He E1) as (En & Eh & Ez).
    destruct (IH _ _ _ Hes E2) as (IH1 & IH2 & IH3).
    split; [|split].
    + cbn [List.length seq map]. f_equal.
      * rewrite En. reflexivity.
      * rewrite IH1, <- (seq_shift (List.length es) 1), map_map.
        apply map_ext.
        intros i. f_equal. lia.
    + rewrite IH2, Eh. cbn [List.length]. lia.
    + intros _. auto.
Qed.


End CreateWallet.

Section CreateWalletErrors.

Variable json_dumps : Wallet.wallet_data -> text.

Local Abbreviation create_wallet := (Wallet.create_wallet json_dumps).


(** C8, as the code has it: when the vault write of [create_wallet] has
    succeeded and the ledger write fails, the failure is raised to the
    caller as [RuntimeError] (nothing is logged by [create_wallet]), the
    ledger is left as it was, and the wallet record stays in the vault as
    its last member. *)
Theorem ledger_failure_raised self e passphrase w n new_account k f' x :
  Wallet.get_next_wallet_number self (Wallet.vault w) = Ok n ->
  Wallet.create_new e passphrase = Ok new_account ->
  decode (Wallet.encrypted_key new_account) = Ok k ->
  Wallet._write_to_vault json_dumps self e (wallet_file_of n)
    (Wallet.build ("Matrix_User_" ++ str_of_int n) new_account k)
    (Wallet.others e (Wallet.vault w)) = (Ok tt, f') ->
  Wallet.ledger_error e = Some x ->
  create_wallet self e passphrase w =
    (raise RuntimeError
       ("Error creating wallet: "
        ++ match cls x with
           | PermissionError =>
               "Permission issue: Unable to write to F:/KeyMaker/keys.csv. Check file permissions."
           | _ => "Error recording passphrase: " ++ msg x
           end),
     {| Wallet.vault := f'; Wallet.keys_csv := Wallet.keys_csv w |})
  /\ exists b,
       f' = Zip (entries (open_a (Wallet.others e (Wallet.vault w)))
                 ++ [Member (wallet_file_of n) (Wallet.clock e)
                       (Wallet.vault_password self) b]).
Proof.
  intros Hn Hacct Hk Hw Hx. split.
  - unfold Wallet.create_wallet. rewrite Hn, Hacct, Hk.
    fold (wallet_file_of n). rewrite Hw.
    unfold Wallet.record_passphrase. rewrite Hx.
    destruct (cls x); reflexivity.
  - apply _write_to_vault_ok in Hw as (_ & b & _ & ->). eauto.
Qed.

End CreateWalletErrors.

Section ConcreteRuns.




Lemma ledger_failure_raised_witness :
  exists f',
    Wallet.create_wallet demo_dumps demo_wallet locked_ledger_env
      "walletpass" demo_world =
    (raise RuntimeError
       "Error creating wallet: Permission issue: Unable to write to F:/KeyMaker/keys.csv. Check file permissions.",
     {| Wallet.vault := f'; Wallet.keys_csv := [] |})
    /\ In "Matrix_User_1.json" (namelist (members f')).
Proof.
  eexists. split.
  - refine (proj1 (ledger_failure_raised demo_dumps demo_wallet
                     locked_ledger_env "walletpass" demo_world 1%Z
                     demo_account (codes "6PYKey") _
                     (Exn PermissionError "Permission denied")
                     eq_refl eq_refl eq_refl _ eq_refl)).
    vm_compute. reflexivity.
  - vm_compute. auto.
Defined.

(** C8 as stated fails: the vault write succeeded, the ledger write failed,
    and the failure is raised to the caller of [create_wallet]. *)
Lemma ledger_failure_reaches_caller :
  exists x w',
    Wallet.create_wallet demo_dumps demo_wallet locked_ledger_env
      "walletpass" demo_world = (Raise x, w')
    /\ In "Matrix_User_1.json" (namelist (members (Wallet.vault w'))).
Proof.
  eexists. eexists. split.
  - vm_compute. reflexivity.
  - vm_compute. auto.
Qed.

End ConcreteRuns.

(** ** [save_api_keys]: reading the other records and rewriting the file *)

Section SaveApiKeys.
Import KeyMakerApp.

Lemma assoc_None_keys name d : assoc name d = None <-> ~ In name (map fst d).
Proof.
  induction d as [|[k v] d IH]; cbn [assoc map fst In]; [tauto|].
  destruct (String.eqb_spec k name) as [->|Hne].
  - split; [discriminate | intros H; exfalso; apply H; left; reflexivity].
  - rewrite IH. tauto.
Qed.

Lemma assoc_setitem_same name v d : assoc name (setitem name v d) = Some v.
Proof.
  induction d as [|[k v'] d IH]; cbn [setitem assoc].
  - rewrite String.eqb_refl. reflexivity.
  - destruct (String.eqb_spec k name) as [->|Hne]; cbn [assoc].
    + rewrite String.eqb_refl. reflexivity.
    + apply String.eqb_neq in Hne. rewrite Hne. exact IH.
Qed.

Lemma assoc_setitem_other name name' v d :
  name' <> name -> assoc name' (setitem name v d) = assoc name' d.
Proof.
  intros Hne. induction d as [|[k v'] d IH]; cbn [setitem assoc].
  - destruct (String.eqb_spec name name'); [congruence | reflexivity].
  - destruct (String.eqb_spec k name) as [->|Hk]; cbn [assoc].
    + destruct (String.eqb_spec name name'); [congruence | reflexivity].
    + rewrite IH. reflexivity.
Qed.

Lemma keys_setitem name v d k :
  In k (map fst (setitem name v d)) <-> k = name \/ In k (map fst d).
Proof.
  induction d as [|[k' v'] d IH]; cbn [setitem map fst In].
  - intuition congruence.
  - destruct (String.eqb_spec k' name) as [->|Hne]; cbn [map fst In].
    + intuition congruence.
    + rewrite IH. intuition congruence.
Qed.

Lemma NoDup_setitem name v d :
  NoDup (map fst d) -> NoDup (map fst (setitem name v d)).
Proof.
  induction d as [|[k' v'] d IH]; cbn [setitem map fst]; intros Hnd.
  - constructor; [intros [] | constructor].
  - inversion Hnd as [|? ? Hnot Hnd']; subst.
    destruct (String.eqb_spec k' name) as [->|Hne]; cbn [map fst].
    + constructor; assumption.
    + constructor; [|auto]. rewrite keys_setitem. intuition congruence.
Qed.

(** The first [with] block: what [old_files] holds when every read worked. *)
Lemma read_old_spec a pwd : forall names d0 d,
  read_old a pwd names d0 = Ok d ->
  NoDup (map fst d0) ->
  NoDup (map fst d)
  /\ (forall name, In name names -> name <> config_name ->
        exists b, read a pwd name = Ok b /\ assoc name d = Some b)
  /\ (forall name, ~ In name names -> assoc name d = assoc name d0)
  /\ assoc config_name d = assoc config_name d0.
Proof.
  induction names as [|n names IH]; intros d0 d; cbn [read_old].
  - intros [= <-] Hnd. split; [assumption|].
    split; [intros ? []|]. split; reflexivity.
  - destruct (String.eqb_spec n config_name) as [->|Hn]; cbn [negb].
    + intros H Hnd. destruct (IH _ _ H Hnd) as (H1 & H2 & H3 & H4).
      split; [assumption|]. split; [|split].
      * intros name [<-|Hin] Hne; [congruence | auto].
      * intros name Hnot. apply H3. intros Hin. apply Hnot. right; assumption.
      * assumption.
    + destruct (read a pwd n) as [b|x] eqn:Er; cbn [bind]; [|discriminate].
      intros H Hnd.
      destruct (IH _ _ H (NoDup_setitem n b d0 Hnd)) as (H1 & H2 & H3 & H4).
      split; [assumption|]. split; [|split].
      * intros name [<-|Hin] Hne; [|auto].
        destruct (in_dec string_dec n names) as [Hin|Hnot]; [auto|].
        exists b. split; [assumption|].
        rewrite (H3 _ Hnot). apply assoc_setitem_same.
      * intros name Hnot. rewrite H3 by (intros Hin; apply Hnot; right; auto).
        apply assoc_setitem_other. intros ->. apply Hnot. left; reflexivity.
      * rewrite H4. apply assoc_setitem_other. congruence.
Qed.

(** The second [with] block, up to the first failing write. *)
Lemma write_old_ok io pwd now : forall items i0 a,
  (forall j, j < List.length items -> io (i0 + j) = None) ->
  write_old io i0 pwd now items a =
    (Ok tt, a ++ map (rewritten pwd now) items).
Proof.
  induction items as [|[n b] items IH]; intros i0 a Hio; cbn [write_old].
  - rewrite app_nil_r. reflexivity.
  - pose proof (Hio 0 ltac:(cbn; lia)) as H0. rewrite Nat.add_0_r in H0.
    rewrite H0. cbn [writestr encode_data bind].
    rewrite IH.
    + cbn [map]. rewrite <- app_assoc. reflexivity.
    + intros j Hj. replace (S i0 + j) with (i0 + S j) by lia.
      apply Hio. cbn. lia.
Qed.

Lemma write_old_fault io pwd now x : forall items i i0 a,
  i < List.length items ->
  (forall j, j < i -> io (i0 + j) = None) ->
  io (i0 + i) = Some x ->
  write_old io i0 pwd now items a =
    (Raise x, a ++ map (rewritten pwd now) (firstn i items)).
Proof.
  induction items as [|[n b] items IH]; intros i i0 a Hi Hbefore Hat;
    cbn [List.length] in Hi; [lia|].
  cbn [write_old]. destruct i as [|i].
  - rewrite Nat.add_0_r in Hat. rewrite Hat. cbn [firstn map].
    rewrite app_nil_r. reflexivity.
  - pose proof (Hbefore 0 ltac:(lia)) as H0. rewrite Nat.add_0_r in H0.
    rewrite H0. cbn [writestr encode_data bind].
    rewrite (IH i (S i0)).
    + cbn [firstn map]. rewrite <- app_assoc. reflexivity.
    + lia.
    + intros j Hj. replace (S i0 + j) with (i0 + S j) by lia.
      apply Hbefore. lia.
    + replace (S i0 + i) with (i0 + S i) by lia. assumption.
Qed.

Lemma find_app {A} (p : A -> bool) l1 l2 :
  find p (l1 ++ l2) =
  match find p l1 with Some x => Some x | None => find p l2 end.
Proof.
  induction l1 as [|x l1 IH]; cbn [app find]; [reflexivity|].
  destruct (p x); [reflexivity | exact IH].
Qed.

(** Access by name in the rewritten members, whose names are unique. *)
Lemma find_rewritten pwd now name d :
  NoDup (map fst d) ->
  find (named name) (rev (map (rewritten pwd now) d)) =
  option_map (fun b => Member name now pwd b) (assoc name d).
Proof.
  induction d as [|[k v] d IH]; cbn [map fst rev assoc]; intros Hnd.
  - reflexivity.
  - inversion Hnd as [|? ? Hnot Hnd']; subst.
    rewrite find_app, (IH Hnd'). cbn [find].
    unfold named at 1, rewritten at 1. cbn [fst snd filename].
    destruct (String.eqb_spec k name) as [->|Hne].
    + apply assoc_None_keys in Hnot. rewrite Hnot. reflexivity.
    + destruct (assoc name d); reflexivity.
Qed.

Lemma write_old_result io pwd now : forall items i0 a a',
  write_old io i0 pwd now items a = (Ok tt, a') ->
  a' = a ++ map (rewritten pwd now) items.
Proof.
  induction items as [|[n b] items IH]; intros i0 a a'; cbn [write_old].
  - intros [= <-]. rewrite app_nil_r. reflexivity.
  - destruct (io i0); [discriminate|]. cbn [writestr encode_data bind].
    intros H. apply IH in H. rewrite H. cbn [map].
    rewrite <- app_assoc. reflexivity.
Qed.

Lemma getinfo_not_listed a name :
  ~ In name (namelist a) ->
  getinfo a name =
    raise KeyError ("There is no item named '" ++ name ++ "' in the archive").
Proof.
  intros Hnot. unfold getinfo.
  destruct (find (named name) (rev a)) as [m|] eqn:E; [|reflexivity].
  exfalso. apply Hnot. apply find_named_In in E as [Hin <-].
  apply in_map. apply in_rev. assumption.
Qed.

Lemma save_api_keys_connected self pwd now io f :
  connected self pwd ->
  save_api_keys self now io f =
    match bind (open_r f) (fun a => read_old a pwd (namelist a) []) with
    | Raise x => (showerror "Error" ("Failed to save API keys: " ++ msg x), f)
    | Ok old_files =>
        match rewrite io pwd now old_files (combined self) f with
        | (Ok _, f') => (showinfo "Success" "API keys saved successfully.", f')
        | (Raise x, f') =>
            (showerror "Error" ("Failed to save API keys: " ++ msg x), f')
        end
    end.
Proof.
  intros (Hc & (c & p & Hp) & Hpwd & Hne). unfold save_api_keys.
  rewrite Hc, Hp, Hpwd. destruct pwd; [congruence | reflexivity].
Qed.

(** Without I/O error the rewrite holds the old records, followed at most
    by the config record. *)
Lemma rewrite_no_fault io pwd now old_files new_text f :
  (forall i, io i = None) ->
  exists tail,
    snd (rewrite io pwd now old_files new_text f) =
      Zip (map (rewritten pwd now) old_files ++ tail)
    /\ Forall (fun m => filename m = config_name) tail.
Proof.
  intros Hio. unfold rewrite. cbn [open_w entries].
  rewrite write_old_ok by (intros; apply Hio). cbn [app].
  rewrite Hio. unfold writestr.
  destruct (encode_data (Str new_text)) as [cb|x]; cbn [bind snd close didModify entries].
  - eexists. split; [reflexivity|]. repeat constructor.
  - exists []. rewrite app_nil_r. split; [reflexivity | constructor].
Qed.

Lemma getinfo_app_other l tail name :
  Forall (fun m => filename m <> name) tail ->
  getinfo (l ++ tail) name = getinfo l name.
Proof.
  intros Ht. unfold getinfo. rewrite rev_app_distr, find_app.
  replace (find (named name) (rev tail)) with (@None member); [reflexivity|].
  symmetry. apply Forall_rev in Ht.
  induction Ht as [|m t Hm _ IH]; cbn [find]; [reflexivity|].
  unfold named at 1. apply String.eqb_neq in Hm. rewrite Hm. exact IH.
Qed.

(** A member that can be read under one password is refused under any
    other. *)
Lemma read_other_password a pwd name b :
  read a pwd name = Ok b ->
  forall pwd',
    read a pwd' name =
      if pwd =? pwd' then Ok b
      else raise RuntimeError ("Bad password for file '" ++ name ++ "'").
Proof.
  unfold read. destruct (getinfo a name) as [m|x]; cbn [bind]; [|discriminate].
  destruct (String.eqb_spec (key m) pwd) as [<-|]; [|discriminate].
  intros [= <-] pwd'. reflexivity.
Qed.


(** C4, as the code has it: [save_api_keys] rewrites the vault file in
    place.  A failure while the old records are read leaves the file
    untouched; once the rewrite has begun the file has been truncated, and a
    failure of its [i]-th write leaves the file holding only the [i] records
    rewritten so far. *)
Theorem save_api_keys_rewrites_in_place self pwd now io f :
  connected self pwd ->
  (forall x,
      bind (open_r f) (fun a => read_old a pwd (namelist a) []) = Raise x ->
      save_api_keys self now io f =
        (showerror "Error" ("Failed to save API keys: " ++ msg x), f))
  /\ (forall old_files i x,
      bind (open_r f) (fun a => read_old a pwd (namelist a) []) = Ok old_files ->
      i <= List.length old_files ->
      (forall j, j < i -> io j = None) ->
      io i = Some x ->
      save_api_keys self now io f =
        (showerror "Error" ("Failed to save API keys: " ++ msg x),
         Zip (map (rewritten pwd now) (firstn i old_files)))).
Proof.
  intros Hc. split.
  - intros x Hr. rewrite (save_api_keys_connected _ _ _ _ _ Hc), Hr.
    reflexivity.
  - intros d i x Hr Hi Hbefore Hat.
    rewrite (save_api_keys_connected _ _ _ _ _ Hc), Hr.
    unfold rewrite. cbn [open_w entries].
    destruct (Nat.eq_dec i (List.length d)) as [->|Hlt].
    + rewrite write_old_ok by (intros j Hj; apply Hbefore; exact Hj).
      rewrite Hat, firstn_all. reflexivity.
    + rewrite (write_old_fault io pwd now x d i 0 []); try assumption; try lia.
      reflexivity.
Qed.

End SaveApiKeys.

Section ConcreteSaves.
Import KeyMakerApp.


Lemma save_api_keys_rewrites_in_place_witness :
  save_api_keys demo_app demo_time fault_at_1 three_wallets =
    (showerror "Error" "Failed to save API keys: No space left on device",
     Zip (map (rewritten "p@ss1" demo_time) (firstn 1 demo_old_files))).
Proof.
  apply (proj2 (save_api_keys_rewrites_in_place demo_app "p@ss1"
                  demo_time fault_at_1 three_wallets
                  (conj eq_refl
                     (conj (ex_intro _ "v"%char (ex_intro _ "ault.zip" eq_refl))
                        (conj eq_refl
                           (fun H : "p@ss1" = "" =>
                              eq_ind "p@ss1"
                                (fun s => match s with
                                          | String _ _ => True
                                          | EmptyString => False
                                          end) I "" H)))))
           demo_old_files 1 (Exn OSError "No space left on device")).
  - vm_compute. reflexivity.
  - vm_compute. lia.
  - intros j Hj. destruct j; [reflexivity | lia].
  - reflexivity.
Defined.

(** C4 as stated fails: a write of the rewrite fails partway and the vault
    file is not what it was; a wallet record that was there is gone. *)
Lemma failed_save_loses_records :
  let r := save_api_keys demo_app demo_time fault_at_1 three_wallets in
  (exists text, fst r = showerror "Error" text)
  /\ snd r <> three_wallets
  /\ In "Matrix_User_3.json" (namelist (members three_wallets))
  /\ ~ In "Matrix_User_3.json" (namelist (members (snd r))).
Proof.
  cbv zeta. split; [|split; [|split]].
  - eexists. vm_compute. reflexivity.
  - vm_compute. discriminate.
  - vm_compute. auto 10.
  - vm_compute. intros [H|[]]. discriminate.
Qed.

End ConcreteSaves.

(** ** [StatsManager.get_wallet_volume_trend] *)

Section Stats.
Import StatsManager.
Local Open Scope Z_scope.

Lemma get_incr k d k' :
  get (incr k d) k' = if (k =? k')%string then get d k' + 1 else get d k'.
Proof.
  induction d as [|[k0 v] d IH]; cbn [incr get].
  - destruct (k =? k')%string; reflexivity.
  - destruct (String.eqb_spec k0 k) as [->|Hne]; cbn [get].
    + destruct (String.eqb_spec k k'); reflexivity.
    + destruct (String.eqb_spec k0 k') as [->|Hne'].
      * apply String.eqb_neq in Hne. rewrite String.eqb_sym, Hne.
        reflexivity.
      * exact IH.
Qed.

Lemma keys_incr k d k' : In k' (keys (incr k d)) <-> k' = k \/ In k' (keys d).
Proof.
  unfold keys. induction d as [|[k0 v] d IH]; cbn [incr map fst In].
  - intuition congruence.
  - destruct (String.eqb_spec k0 k) as [->|Hne]; cbn [map fst In].
    + intuition congruence.
    + rewrite IH. intuition congruence.
Qed.

Lemma NoDup_incr k d : NoDup (keys d) -> NoDup (keys (incr k d)).
Proof.
  unfold keys. induction d as [|[k0 v] d IH]; cbn [incr map fst]; intros Hnd.
  - constructor; [intros [] | constructor].
  - inversion Hnd as [|? ? Hnot Hnd']; subst.
    destruct (String.eqb_spec k0 k) as [->|Hne]; cbn [map fst].
    + constructor; assumption.
    + constructor; [|auto]. intros Hin. apply (keys_incr k d k0) in Hin.
      intuition congruence.
Qed.

Lemma count_loop_json a n names d0 d :
  endswith n ".json" = true ->
  count_loop a (n :: names) d0 = Ok d ->
  exists key,
    date_key a n = Some key /\ count_loop a names (incr key d0) = Ok d.
Proof.
  intros Ej. cbn [count_loop]. rewrite Ej. unfold date_key.
  destruct (getinfo a n) as [info|x]; cbn [bind]; [|discriminate].
  destruct (datetime (info_date_time info)) as [dt|x]; cbn [bind];
    [|discriminate].
  intros H. exists (strftime dt). split; [reflexivity | exact H].
Qed.

(** The counting loop: every day's counter grows by the number of listed
    [.json] names counted under that day. *)
Lemma count_loop_spec a : forall names d0 d,
  count_loop a names d0 = Ok d ->
  (forall k, get d k =
             get d0 k + Z.of_nat (List.length (filter (counted_on a k) names)))
  /\ (forall k, In k (keys d) <->
                In k (keys d0) \/ exists name,
                  In name names /\ counted_on a k name = true)
  /\ (NoDup (keys d0) -> NoDup (keys d)).
Proof.
  induction names as [|n names IH]; intros d0 d.
  - cbn [count_loop]. intros [= <-]. split; [intros; cbn; lia|].
    split; [|auto].
    intros k. split; [auto | intros [H|(? & [] & _)]; exact H].
  - destruct (endswith n ".json") eqn:Ej.
    + intros H. destruct (count_loop_json _ _ _ _ _ Ej H) as (key & Hk & H').
      destruct (IH _ _ H') as (H1 & H2 & H3).
      assert (Hc : forall k, counted_on a k n = (key =? k)%string).
      { intros k. unfold counted_on. rewrite Ej, Hk. reflexivity. }
      split; [|split].
      * intros k. rewrite H1, get_incr. cbn [filter]. rewrite Hc.
        destruct (key =? k)%string; cbn [List.length]; lia.
      * intros k. rewrite H2, keys_incr. split.
        -- intros [[->|Hin]|(name & Hin & Hn)].
           ++ right. exists n. split; [left; reflexivity|].
              rewrite Hc. apply String.eqb_refl.
           ++ left; assumption.
           ++ right. exists name. split; [right; assumption | assumption].
        -- intros [Hin|(name & [<-|Hin] & Hn)].
           ++ left; right; assumption.
           ++ rewrite Hc in Hn. apply String.eqb_eq in Hn. left; left; auto.
           ++ right. exists name. split; assumption.
      * intros Hnd. apply H3, NoDup_incr, Hnd.
    + cbn [count_loop]. rewrite Ej. intros H.
      destruct (IH _ _ H) as (H1 & H2 & H3).
      assert (Hc : forall k, counted_on a k n = false).
      { intros k. unfold counted_on. rewrite Ej. reflexivity. }
      split; [|split].
      * intros k. rewrite H1. cbn [filter]. rewrite Hc. reflexivity.
      * intros k. rewrite H2. split.
        -- intros [Hin|(name & Hin & Hn)]; [left; assumption|].
           right. exists name. split; [right; assumption | assumption].
        -- intros [Hin|(name & [<-|Hin] & Hn)]; [left; assumption| |].
           ++ rewrite Hc in Hn. discriminate.
           ++ right. exists name. split; assumption.
      * exact H3.
Qed.

(** [sorted]: a rearrangement in ascending order. *)
Lemma insert_perm x l : Permutation (x :: l) (insert x l).
Proof.
  induction l as [|y l IH]; cbn [insert]; [reflexivity|].
  destruct (String.leb x y); [reflexivity|].
  rewrite perm_swap. apply perm_skip. exact IH.
Qed.

Lemma sorted_perm l : Permutation l (sorted l).
Proof.
  induction l as [|x l IH]; cbn [sorted]; [reflexivity|].
  rewrite <- insert_perm. apply perm_skip. exact IH.
Qed.

Lemma insert_sorted x l : Sorted le_string l -> Sorted le_string (insert x l).
Proof.
  induction l as [|y l IH]; cbn [insert]; intros Hs.
  - repeat constructor.
  - destruct (String.leb x y) eqn:E.
    + constructor; [assumption | constructor; exact E].
    + inversion Hs as [|? ? Hs' Hhd]; subst.
      constructor; [auto|].
      assert (Hyx : le_string y x).
      { destruct (String.leb_total x y) as [H|H]; [congruence | exact H]. }
      destruct l as [|z l]; cbn [insert].
      * constructor; exact Hyx.
      * destruct (String.leb x z); constructor; [exact Hyx|].
        inversion Hhd; assumption.
Qed.

Lemma sorted_sorted l : Sorted le_string (sorted l).
Proof.
  induction l as [|x l IH]; cbn [sorted]; [constructor|].
  apply insert_sorted; exact IH.
Qed.

Lemma leb_neq_ltb x y : le_string x y -> x <> y -> lt_string x y.
Proof.
  unfold le_string, lt_string, String.leb, String.ltb.
  destruct (String.compare x y) eqn:E; try discriminate; try reflexivity.
  apply String.compare_eq_iff in E. congruence.
Qed.

(** Without repeats, ascending is strictly ascending. *)
Lemma Sorted_strict l :
  Sorted le_string l -> NoDup l -> Sorted lt_string l.
Proof.
  induction 1 as [|x l Hs IH Hhd]; intros Hnd; [constructor|].
  inversion Hnd as [|? ? Hnot Hnd']; subst.
  constructor; [auto|].
  destruct Hhd as [|y l' Hxy]; constructor.
  apply leb_neq_ltb; [exact Hxy|].
  intros ->. apply Hnot. left; reflexivity.
Qed.

(** The random split of the volumes. *)
Lemma full_split_spec rng : forall volumes i0,
  Forall (fun v => 0 <= v) volumes ->
  let full_counts := full_split rng i0 volumes in
  let empty_counts :=
    map (fun vf => fst vf - snd vf) (combine volumes full_counts) in
  List.length full_counts = List.length volumes
  /\ List.length empty_counts = List.length volumes
  /\ Forall (fun v => 0 <= v) full_counts
  /\ Forall (fun v => 0 <= v) empty_counts
  /\ forall i, (i < List.length volumes)%nat ->
       nth i full_counts 0 + nth i empty_counts 0 = nth i volumes 0.
Proof.
  induction volumes as [|vol vs IH]; intros i0 Hpos; cbv zeta.
  - cbn. repeat split; try constructor. intros i Hi. lia.
  - inversion Hpos as [|? ? Hvol Hvs]; subst.
    destruct (IH (S i0) Hvs) as (L1 & L2 & F1 & F2 & Hn).
    cbn [full_split combine map List.length fst snd].
    assert (Hr : 0 <= randint (rng i0) 0 vol <= vol).
    { unfold randint.
      pose proof (Z.mod_pos_bound (rng i0) (vol - 0 + 1) ltac:(lia)). lia. }
    split; [rewrite L1; reflexivity|]. split; [rewrite L2; reflexivity|].
    split; [constructor; [lia | exact F1]|].
    split; [constructor; [lia | exact F2]|].
    intros [|i] Hi; cbn [nth]; [lia | apply Hn; lia].
Qed.

Lemma datetime_Ok d dt : datetime d = Ok dt -> dt = d.
Proof. unfold datetime. destruct (_ && _)%bool; [congruence | discriminate]. Qed.

(** In an archive without repeated names, access by name returns the
    member itself. *)
Lemma getinfo_member a m :
  NoDup (namelist a) -> In m a -> getinfo a (filename m) = Ok m.
Proof.
  intros Hnd Hin.
  destruct (getinfo_listed a (filename m)) as [m' Hm'];
    [apply in_map; exact Hin|].
  rewrite Hm'. f_equal. apply getinfo_In in Hm' as [Hin' Hn].
  clear - Hnd Hin Hin' Hn. unfold namelist in Hnd.
  induction a as [|x a IH]; [destruct Hin|].
  cbn [map] in Hnd. inversion Hnd as [|? ? Hnot Hnd']; subst.
  destruct Hin as [->|Hin], Hin' as [->|Hin']; auto.
  - exfalso. apply Hnot. rewrite <- Hn. apply in_map; assumption.
  - exfalso. apply Hnot. rewrite Hn. apply in_map; assumption.
Qed.

(** What [get_wallet_volume_trend] returns when the counting loop ends. *)
Lemma trend_counted self rng a wallet_counts :
  count_loop a (namelist a) [] = Ok wallet_counts ->
  get_wallet_volume_trend self rng (Zip a) =
    (sorted (keys wallet_counts),
     full_split rng 0 (map (get wallet_counts) (sorted (keys wallet_counts))),
     map (fun vf => fst vf - snd vf)
       (combine (map (get wallet_counts) (sorted (keys wallet_counts)))
          (full_split rng 0
             (map (get wallet_counts) (sorted (keys wallet_counts)))))).
Proof.
  intros H. unfold get_wallet_volume_trend. cbn [open_r bind]. rewrite H.
  reflexivity.
Qed.

(** Any other case ends in the [except] branch. *)
Lemma trend_cases self rng f :
  (exists a wallet_counts,
      f = Zip a /\ count_loop a (namelist a) [] = Ok wallet_counts)
  \/ get_wallet_volume_trend self rng f = ([], [], []).
Proof.
  unfold get_wallet_volume_trend.
  destruct f as [| |a]; cbn [open_r bind raise]; try (right; reflexivity).
  destruct (count_loop a (namelist a) []) as [d|x] eqn:E;
    [left; eauto | right; reflexivity].
Qed.

Lemma get_counted a wallet_counts :
  count_loop a (namelist a) [] = Ok wallet_counts ->
  forall k, get wallet_counts k =
            Z.of_nat (List.length (filter (counted_on a k) (namelist a))).
Proof.
  intros H k. destruct (count_loop_spec _ _ _ _ H) as (H1 & _).
  rewrite H1. reflexivity.
Qed.

(** With unique names, the names counted under a day are the [.json]
    members stamped with that day. *)
Lemma counted_members a wallet_counts k :
  NoDup (namelist a) ->
  count_loop a (namelist a) [] = Ok wallet_counts ->
  List.length (filter (counted_on a k) (namelist a)) =
  List.length (filter (dated k) a).
Proof.
  intros Hnd H. unfold namelist at 1.
  rewrite filter_map_swap, length_map. f_equal.
  apply filter_ext_in. intros m Hin. unfold counted_on, dated, date_key.
  destruct (endswith (filename m) ".json") eqn:Ej; [|reflexivity].
  cbn [andb]. rewrite (getinfo_member a m Hnd Hin).
  destruct (datetime (info_date_time m)) as [dt|x] eqn:Ed.
  - apply datetime_Ok in Ed. subst dt. reflexivity.
  - exfalso.
    assert (Hall : forall names d0 d,
               count_loop a names d0 = Ok d ->
               forall n, In n names -> endswith n ".json" = true ->
                         date_key a n <> None).
    { clear. induction names as [|n0 names IH]; intros d0 d Hc n [];
        intros Hj.
      - subst n0. destruct (count_loop_json _ _ _ _ _ Hj Hc) as (key & -> & _).
        discriminate.
      - destruct (endswith n0 ".json") eqn:E0.
        + destruct (count_loop_json _ _ _ _ _ E0 Hc) as (key & _ & Hc').
          eapply IH; eauto.
        + cbn [count_loop] in Hc. rewrite E0 in Hc. eapply IH; eauto. }
    apply (Hall _ _ _ H (filename m) (in_map _ _ _ Hin) Ej).
    unfold date_key. rewrite (getinfo_member a m Hnd Hin), Ed. reflexivity.
Qed.

Lemma keys_counted a wallet_counts :
  count_loop a (namelist a) [] = Ok wallet_counts ->
  forall k, In k (keys wallet_counts) <->
            exists name, In name (namelist a) /\ counted_on a k name = true.
Proof.
  intros H k. destruct (count_loop_spec _ _ _ _ H) as (_ & H2 & _).
  rewrite H2. cbn [keys map In]. tauto.
Qed.

Lemma volumes_nonneg a wallet_counts l :
  count_loop a (namelist a) [] = Ok wallet_counts ->
  Forall (fun v => 0 <= v) (map (get wallet_counts) l).
Proof.
  intros H. apply Forall_forall. intros v Hin.
  apply in_map_iff in Hin as (k & <- & _).
  rewrite (get_counted _ _ H). lia.
Qed.


(** C10, for a vault whose member names are unique: the three lists have
    the same length, no count is negative, and at every index the two counts
    add up to the number of [.json] members stamped with that day. *)
Theorem volume_trend_split_sums self rng f
    sorted_dates full_counts empty_counts :
  NoDup (namelist (members f)) ->
  get_wallet_volume_trend self rng f
    = (sorted_dates, full_counts, empty_counts) ->
  List.length full_counts = List.length sorted_dates
  /\ List.length empty_counts = List.length sorted_dates
  /\ Forall (fun v => 0 <= v) full_counts
  /\ Forall (fun v => 0 <= v) empty_counts
  /\ forall i, (i < List.length sorted_dates)%nat ->
       nth i full_counts 0 + nth i empty_counts 0 =
       Z.of_nat (List.length
                   (filter (dated (nth i sorted_dates "")) (members f))).
Proof.
  intros Hnd H.
  destruct (trend_cases self rng f) as [(a & d & -> & Hc)|Hfail].
  - rewrite (trend_counted self rng a d Hc) in H.
    injection H as <- <- <-. cbn [members] in *.
    destruct (full_split_spec rng (map (get d) (sorted (keys d))) 0%nat
                (volumes_nonneg a d _ Hc)) as (L1 & L2 & F1 & F2 & Hn).
    split; [rewrite L1; apply length_map|].
    split; [rewrite L2; apply length_map|].
    split; [exact F1|]. split; [exact F2|].
    intros i Hi. rewrite Hn by (rewrite length_map; exact Hi).
    rewrite (nth_indep _ 0 (get d "")) by (rewrite length_map; exact Hi).
    rewrite map_nth, (get_counted _ _ Hc).
    rewrite (counted_members a d _ Hnd Hc). reflexivity.
  - rewrite Hfail in H. injection H as <- <- <-.
    repeat split; try constructor. intros i Hi. cbn in Hi. lia.
Qed.

End Stats.

Section ConcreteStats.
Import StatsManager.
Local Open Scope Z_scope.



Lemma volume_trend_split_sums_witness :
  let r := get_wallet_volume_trend demo_stats (fun _ => 2) three_wallets in
  nth 0 (snd (fst r)) 0 + nth 0 (snd r) 0 = 3.
Proof.
  cbv zeta.
  destruct (volume_trend_split_sums demo_stats (fun _ => 2) three_wallets
              ["2025-01-05"%string] [2] [1]) as (_ & _ & _ & _ & H).
  - vm_compute.
    repeat (constructor; [cbn; intuition discriminate|]). constructor.
  - vm_compute. reflexivity.
  - exact (H 0%nat (le_n 1)).
Defined.

(** C10 as stated fails when a name occurs twice: both occurrences are
    counted under the day of the member written last. *)
Lemma volume_trend_counts_duplicate_twice :
  get_wallet_volume_trend demo_stats (fun _ => 0) (Zip twice_named)
    = (["2025-01-06"%string], [0], [2])
  /\ List.length (filter (dated "2025-01-06") twice_named) = 1%nat.
Proof. split; vm_compute; reflexivity. Qed.

End ConcreteStats.

(** ** Appending under a name that is already present *)

Section DuplicateNames.

(** [Vault.write_to_vault] checks the listing: a present name is refused on
    each of the three attempts and the file stays as it was. *)
Lemma write_to_vault_duplicate self now name d a :
  Vault.unset self = false ->
  In name (namelist a) ->
  Vault.write_to_vault self now name d (Zip a) =
    (raise RuntimeError
       ("Failed to write to vault after 3 attempts: Duplicate file name: "
        ++ name), Zip a).
Proof.
  intros Hset Hin. unfold Vault.write_to_vault. rewrite Hset.
  apply write_loop_duplicate. exact Hin.
Qed.



End DuplicateNames.

(* ===================================================================== *)
(** * Further properties of the vault code *)
(* ===================================================================== *)

(** ** [Vault]: creation, validation, listing, reading *)

Section VaultMore.

Lemma unset_false_pwd self :
  Vault.unset self = false -> Vault.pwd self <> "".
Proof.
  unfold Vault.unset, Vault.not_, Vault.pwd. intros H.
  apply orb_false_iff in H as [_ H].
  destruct (Vault.password self) as [p|]; [|discriminate].
  intros ->. discriminate.
Qed.



Lemma validate_vault_Ok self f :
  Vault.validate_vault self f = Ok true ->
  Vault.unset self = false
  /\ exists a m t,
       f = Zip a /\ getinfo a Vault.sentinel = Ok m
       /\ key m = Vault.pwd self /\ utf8_decode (content m) = Some t.
Proof.
  unfold Vault.validate_vault.
  destruct (Vault.unset self); [discriminate|].
  destruct f as [| |a]; cbn [open_r bind raise try_except cls];
    try discriminate.
  unfold read. destruct (getinfo a Vault.sentinel) as [m|x] eqn:Eg;
    cbn [bind try_except]; [|destruct (cls x); discriminate].
  destruct (String.eqb_spec (key m) (Vault.pwd self)) as [Ek|Ek];
    cbn [bind raise try_except cls]; [|discriminate].
  unfold decode.
  destruct (utf8_decode (content m)) as [t|] eqn:Ed;
    cbn [bind raise try_except cls]; [|discriminate].
  intros _. split; [reflexivity|]. eauto 10.
Qed.

(** The closed form of [write_to_vault] on an existing archive. *)
Lemma write_to_vault_on_archive self now name d a :
  Vault.write_to_vault self now name d (Zip a) =
    if Vault.unset self then (raise ValueError Vault.must_be_set, Zip a)
    else if Vault.mem name (namelist a) then
      (raise RuntimeError
         ("Failed to write to vault after 3 attempts: Duplicate file name: "
          ++ name), Zip a)
    else
      match encode_data d with
      | Ok b => (Ok tt, Zip (a ++ [Member name now (Vault.pwd self) b]))
      | Raise e =>
          (raise RuntimeError ("Unexpected error during write: " ++ msg e),
           Zip a)
      end.
Proof.
  destruct (Vault.unset self) eqn:Hset.
  { apply unset_write_to_vault. exact Hset. }
  destruct (Vault.mem name (namelist a)) eqn:Hm.
  { apply write_to_vault_duplicate; [exact Hset | apply mem_In; exact Hm]. }
  unfold Vault.write_to_vault. rewrite Hset.
  cbn [Vault.write_loop]. unfold Vault.write_attempt, writestr.
  cbn [open_a entries]. rewrite Hm.
  destruct d as [t|b]; cbn [encode_data bind]; [|reflexivity].
  destruct (utf8_encode t); reflexivity.
Qed.







End VaultMore.

(** ** [Wallet]: what a creation touches *)

Section WalletMore.

Variable json_dumps : Wallet.wallet_data -> text.

Local Abbreviation create_wallet := (Wallet.create_wallet json_dumps).
Local Abbreviation create_wallets := (Wallet.create_wallets json_dumps).

(** The name built from the next number is not in the listing. *)
Lemma wallet_file_fresh a :
  ~ In (wallet_file_of (highest (Zip a) + 1)) (namelist a).
Proof.
  intros Hin. cbn [highest] in Hin.
  pose proof (highest_nonneg (Zip a)) as Hh. cbn [highest] in Hh.
  destruct (fold_step_max (filter Wallet.is_wallet_name (namelist a)) 0%Z)
    as (_ & Hub & _).
  assert (Hn : (0 <= fold_left Wallet.step
                      (filter Wallet.is_wallet_name (namelist a)) 0 + 1)%Z)
    by lia.
  pose proof (Hub _ _
                (proj2 (filter_In _ _ _)
                   (conj Hin (is_wallet_name_wallet_file _)))
                (wallet_number_wallet_file _ Hn)).
  lia.
Qed.

(** The three ways a call under a single writer can end: nothing written;
    the record written and the ledger line refused; both written. *)
Lemma create_wallet_cases self e passphrase w r w' :
  quiet e ->
  create_wallet self e passphrase w = (r, w') ->
  (exists x, r = Raise x /\ Wallet.vault w' = Wallet.vault w
             /\ Wallet.keys_csv w' = Wallet.keys_csv w)
  \/ exists a b,
       let new_file := wallet_file_of (highest (Zip a) + 1) in
       Wallet.vault w = Zip a
       /\ Wallet.vault w' =
          Zip (a ++ [Member new_file (Wallet.clock e)
                       (Wallet.vault_password self) b])
       /\ ((exists x, r = Raise x
                      /\ Wallet.keys_csv w' = Wallet.keys_csv w)
           \/ (r = Ok new_file
               /\ Wallet.keys_csv w' =
                  Wallet.keys_csv w ++ [ledger_line e new_file passphrase])).
Proof.
  intros Hq. unfold Wallet.create_wallet, Wallet.get_next_wallet_number.
  destruct (Wallet.list_wallets self (Wallet.vault w)) as [names|x] eqn:El;
    cbn [bind].
  2:{ intros [= <- <-]. left. eexists. repeat split. }
  apply list_wallets_Zip in El as (a & Ea & ->).
  destruct (Wallet.create_new e passphrase) as [acct|x].
  2:{ intros [= <- <-]. left. eexists. repeat split. }
  destruct (decode (Wallet.encrypted_key acct)) as [k|x].
  2:{ intros [= <- <-]. left. eexists. repeat split. }
  rewrite Hq, Ea.
  unfold Wallet._write_to_vault, writestr, encode_data.
  cbn [open_a entries close didModify].
  destruct (Wallet.write_error e) as [x|].
  { intros [= <- <-]. left. eexists. cbn [Wallet.vault Wallet.keys_csv].
    repeat split. }
  destruct (utf8_encode _) as [b|]; cbn [bind].
  2:{ intros [= <- <-]. left. eexists. cbn [Wallet.vault Wallet.keys_csv].
      repeat split. }
  unfold Wallet.record_passphrase.
  destruct (Wallet.ledger_error e) as [x|].
  - assert (Hr : exists y l,
               (match cls x with
                | PermissionError =>
                    (raise RuntimeError
                       ("Permission issue: Unable to write to "
                        ++ Wallet.keys_file ++ ". Check file permissions."),
                     Wallet.keys_csv w)
                | _ => (raise RuntimeError
                          ("Error recording passphrase: " ++ msg x),
                        Wallet.keys_csv w)
                end) = (@Raise unit y, l) /\ l = Wallet.keys_csv w).
    { destruct (cls x); eexists; eexists; split; reflexivity. }
    destruct Hr as (y & l & -> & ->).
    intros [= <- <-]. right. exists a, b. cbv zeta.
    cbn [Wallet.vault Wallet.keys_csv highest].
    split; [reflexivity|]. split; [reflexivity|].
    left. eexists. split; reflexivity.
  - intros [= <- <-]. right. exists a, b. cbv zeta.
    cbn [Wallet.vault Wallet.keys_csv highest].
    split; [reflexivity|]. split; [reflexivity|].
    right. split; reflexivity.
Qed.



(** X7: under a single writer one call of [create_wallet] only appends: the
    members of the vault stay, in order, followed by at most one new member
    named after the next number, stamped with the clock and keyed with the
    wallet's vault password; the ledger keeps its lines followed by at most
    one new line, written only when the member was; and a name is returned
    exactly when the ledger line was written. *)
Theorem create_wallet_footprint self e passphrase w r w' :
  quiet e ->
  create_wallet self e passphrase w = (r, w') ->
  exists tail lines,
    members (Wallet.vault w') = members (Wallet.vault w) ++ tail
    /\ Wallet.keys_csv w' = Wallet.keys_csv w ++ lines
    /\ (List.length lines <= List.length tail <= 1)%nat
    /\ Forall (fun m =>
         filename m = wallet_file_of (highest (Wallet.vault w) + 1)
         /\ info_date_time m = Wallet.clock e
         /\ key m = Wallet.vault_password self) tail
    /\ ((exists new_file, r = Ok new_file) <-> lines <> [])
    /\ (forall new_file, r = Ok new_file ->
          namelist tail = [new_file]
          /\ lines = [ledger_line e new_file passphrase]).
Proof.
  intros Hq H.
  destruct (create_wallet_cases _ _ _ _ _ _ Hq H)
    as [(x & -> & Hv & Hk)|(a & b & Ha & Hv & Hk)].
  - exists [], []. rewrite Hv, Hk, !app_nil_r.
    repeat split; try constructor; try (cbn; lia).
    + intros (? & [=]).
    + intros F. now destruct F.
    + discriminate.
    + discriminate.
  - cbv zeta in Hv, Hk. rewrite Ha, Hv. cbn [members].
    destruct Hk as [(x & -> & Hk)|(-> & Hk)]; rewrite Hk.
    + eexists; exists [].
      split; [reflexivity|]. split; [symmetry; apply app_nil_r|].
      split; [cbn; lia|]. split.
      { repeat constructor. }
      split; [|discriminate].
      split; [intros (? & [=])|intros F; now destruct F].
    + eexists; eexists.
      split; [reflexivity|]. split; [reflexivity|].
      split; [cbn; lia|]. split.
      { repeat constructor. }
      split.
      * split; [discriminate|eauto].
      * intros ? [= <-]. split; reflexivity.
Qed.

(** A vault keeps what [validate_vault] reads when members of other names
    are appended. *)
Lemma validate_vault_app store a tail :
  Vault.validate_vault store (Zip a) = Ok true ->
  Forall (fun m => filename m <> Vault.sentinel) tail ->
  Vault.validate_vault store (Zip (a ++ tail)) = Ok true.
Proof.
  intros Hv Ht. revert Hv.
  unfold Vault.validate_vault. destruct (Vault.unset store); [discriminate|].
  cbn [open_r bind]. unfold read.
  rewrite (getinfo_app_other _ _ _ Ht). trivial.
Qed.

(** Reading a name other than the appended ones is not affected. *)
Lemma extract_file_app store name a tail :
  Forall (fun m => filename m <> name) tail ->
  Vault.extract_file store name (Zip (a ++ tail))
  = Vault.extract_file store name (Zip a).
Proof.
  intros Ht. unfold Vault.extract_file, read. cbn [open_r bind].
  rewrite (getinfo_app_other _ _ _ Ht). reflexivity.
Qed.

Lemma wallet_file_not_sentinel n : wallet_file_of n <> Vault.sentinel.
Proof.
  unfold wallet_file_of. rewrite append_assoc. discriminate.
Qed.

(** X8: under a single writer [create_wallet] keeps the vault sound,
    whether it returns or raises: member names that were distinct stay
    distinct, a vault that validated for a store still validates, and every
    name listed before the call extracts to what it did before. *)
Theorem create_wallet_keeps_vault_sound self store e passphrase w :
  quiet e ->
  let w' := snd (create_wallet self e passphrase w) in
  (NoDup (namelist (members (Wallet.vault w))) ->
   NoDup (namelist (members (Wallet.vault w'))))
  /\ (Vault.validate_vault store (Wallet.vault w) = Ok true ->
      Vault.validate_vault store (Wallet.vault w') = Ok true)
  /\ (forall name, In name (namelist (members (Wallet.vault w))) ->
        Vault.extract_file store name (Wallet.vault w')
        = Vault.extract_file store name (Wallet.vault w)).
Proof.
  intros Hq. cbv zeta.
  destruct (create_wallet self e passphrase w) as [r w'] eqn:H. cbn [snd].
  destruct (create_wallet_cases _ _ _ _ _ _ Hq H)
    as [(x & _ & Hv & _)|(a & b & Ha & Hv & _)].
  - rewrite Hv. repeat split; trivial.
  - cbv zeta in Hv. rewrite Ha, Hv. cbn [members].
    pose proof (wallet_file_fresh a) as Hf.
    split; [|split].
    + intros Hn. unfold namelist. rewrite map_app. cbn [map filename].
      apply NoDup_app; [exact Hn|repeat constructor; intros []|].
      intros name Hin [<-|[]]. exact (Hf Hin).
    + intros Hs. apply validate_vault_app; [exact Hs|].
      repeat constructor. cbn [filename]. apply wallet_file_not_sentinel.
    + intros name Hin. apply extract_file_app.
      repeat constructor. cbn [filename]. intros <-. exact (Hf Hin).
Qed.

(** The count of the manager window is the length of the listing. *)
Lemma update_wallet_count_list self f l :
  Wallet.list_wallets self f = Ok l ->
  WalletManager.update_wallet_count f = Ok (Z.of_nat (List.length l)).
Proof.
  intros Hl. apply list_wallets_Zip in Hl as (a & -> & ->). reflexivity.
Qed.

Lemma list_wallets_app self a m :
  Wallet.is_wallet_name (filename m) = true ->
  Wallet.list_wallets self (Zip (a ++ [m]))
  = Ok (filter Wallet.is_wallet_name (namelist a) ++ [filename m]).
Proof.
  intros Hm. unfold Wallet.list_wallets, namelist. cbn [open_r bind try_except].
  rewrite map_app, filter_app. cbn [map filter]. rewrite Hm. reflexivity.
Qed.


End WalletMore.

(** ** Concrete creations *)

Lemma create_wallet_footprint_witness :
  exists tail (lines : list string),
    members (Wallet.vault
               (snd (Wallet.create_wallet demo_dumps demo_wallet
                       locked_ledger_env "walletpass" demo_world)))
      = members (Wallet.vault demo_world) ++ tail
    /\ lines = [] /\ List.length tail = 1%nat.
Proof.
  destruct (create_wallet_footprint demo_dumps demo_wallet locked_ledger_env
              "walletpass" demo_world
              (fst (Wallet.create_wallet demo_dumps demo_wallet
                      locked_ledger_env "walletpass" demo_world))
              (snd (Wallet.create_wallet demo_dumps demo_wallet
                      locked_ledger_env "walletpass" demo_world))
              (fun f => eq_refl) eq_refl)
    as (tail & lines & Hm & Hk & _).
  exists tail, lines. split; [exact Hm|].
  split.
  - apply (app_inv_head (Wallet.keys_csv demo_world)).
    rewrite app_nil_r. symmetry. exact Hk.
  - apply (f_equal (@List.length _)) in Hm.
    rewrite length_app in Hm. vm_compute in Hm.
    injection Hm as Hm. symmetry. exact Hm.
Defined.

Lemma create_wallet_keeps_vault_sound_witness :
  Vault.validate_vault demo_store
    (Wallet.vault
       (snd (Wallet.create_wallet demo_dumps demo_wallet locked_ledger_env
               "walletpass" demo_world))) = Ok true.
Proof.
  apply (create_wallet_keeps_vault_sound demo_dumps demo_wallet demo_store
           locked_ledger_env "walletpass" demo_world (fun f => eq_refl)).
  vm_compute. reflexivity.
Defined.


(** ** [save_api_keys]: the vault after a successful save *)

Section SaveMore.
Import KeyMakerApp.

(** The file a successful save leaves: the old records in the order of
    [old_files], then the config record. *)
Lemma save_api_keys_success self pwd now io f title message f' :
  connected self pwd ->
  save_api_keys self now io f = (showinfo title message, f') ->
  exists a d b,
    f = Zip a /\ read_old a pwd (namelist a) [] = Ok d
    /\ utf8_encode (combined self) = Some b
    /\ f' = Zip (map (rewritten pwd now) d ++ [Member config_name now pwd b]).
Proof.
  intros Hc. rewrite (save_api_keys_connected _ _ _ _ _ Hc).
  destruct f as [| |a]; cbn [open_r bind raise]; try discriminate.
  destruct (read_old a pwd (namelist a) []) as [d|x] eqn:Er; [|discriminate].
  unfold rewrite. cbn [open_w entries].
  destruct (write_old io 0 pwd now d []) as [[[]|x] a'] eqn:Ew;
    [|discriminate].
  apply write_old_result in Ew. cbn [app] in Ew. subst a'.
  destruct (io (List.length d)); [discriminate|].
  unfold writestr, encode_data.
  destruct (utf8_encode (combined self)) as [b|]; cbn [bind raise];
    [|discriminate].
  cbn [close didModify entries]. intros [= _ _ <-].
  exists a, d, b. repeat split; try reflexivity; try exact Er.
Qed.

Lemma read_old_keys a pwd d :
  read_old a pwd (namelist a) [] = Ok d ->
  NoDup (map fst d)
  /\ forall name, In name (map fst d) <->
                  In name (namelist a) /\ name <> config_name.
Proof.
  intros Hr.
  destruct (read_old_spec _ _ _ _ _ Hr (NoDup_nil _)) as (Hnd & Hin & Hout & Hc).
  split; [exact Hnd|]. intros name. split.
  - intros Hk. split.
    + destruct (in_dec string_dec name (namelist a)) as [H|H]; [exact H|].
      apply Hout in H. cbn [assoc] in H.
      apply assoc_None_keys in H. contradiction.
    + intros ->. cbn [assoc] in Hc. apply assoc_None_keys in Hc.
      contradiction.
  - intros [Hl Hne]. destruct (Hin _ Hl Hne) as (b & _ & Hb).
    destruct (in_dec string_dec name (map fst d)) as [H|H]; [exact H|].
    apply assoc_None_keys in H. congruence.
Qed.

Lemma namelist_rewritten pwd now d :
  namelist (map (rewritten pwd now) d) = map fst d.
Proof.
  unfold namelist. rewrite map_map. reflexivity.
Qed.


(** The loop of [get_next_wallet_number] depends on the names only as a
    set. *)
Lemma fold_step_same_names l1 l2 :
  (forall n, In n l1 <-> In n l2) ->
  fold_left Wallet.step l1 0%Z = fold_left Wallet.step l2 0%Z.
Proof.
  intros H.
  destruct (fold_step_max l1 0%Z) as (H1 & U1 & A1).
  destruct (fold_step_max l2 0%Z) as (H2 & U2 & A2).
  cbv zeta in *.
  assert (fold_left Wallet.step l1 0 <= fold_left Wallet.step l2 0)%Z.
  { destruct A1 as [->|(n & Hn & En)]; [exact H2|].
    apply (U2 n); [apply H; exact Hn|exact En]. }
  assert (fold_left Wallet.step l2 0 <= fold_left Wallet.step l1 0)%Z.
  { destruct A2 as [->|(n & Hn & En)]; [exact H1|].
    apply (U1 n); [apply H; exact Hn|exact En]. }
  lia.
Qed.

Lemma setitem_fresh name v d :
  ~ In name (map fst d) -> setitem name v d = d ++ [(name, v)].
Proof.
  induction d as [|[k v'] d IH]; cbn [setitem map fst In app];
    [reflexivity|].
  intros H. destruct (String.eqb_spec k name) as [->|Hne].
  - exfalso. apply H. left; reflexivity.
  - rewrite IH; [reflexivity|]. intros Hin. apply H. right; exact Hin.
Qed.

(** With distinct names the dict is filled in the order of the listing. *)
Lemma read_old_order a pwd : forall names d0 d,
  read_old a pwd names d0 = Ok d ->
  NoDup names ->
  (forall n, In n names -> ~ In n (map fst d0)) ->
  map fst d =
    map fst d0 ++ filter (fun n => negb (n =? config_name)) names.
Proof.
  induction names as [|n names IH]; intros d0 d; cbn [read_old filter].
  - intros [= <-] _ _. rewrite app_nil_r. reflexivity.
  - intros Hr Hnd Hfresh. inversion Hnd as [|? ? Hn Hnd']; subst.
    destruct (negb (n =? config_name)).
    + destruct (read a pwd n) as [b|x]; cbn [bind] in Hr; [|discriminate].
      rewrite (IH _ _ Hr Hnd').
      * rewrite setitem_fresh by (apply Hfresh; left; reflexivity).
        rewrite map_app. cbn [map fst]. rewrite <- app_assoc. reflexivity.
      * intros k Hk. rewrite keys_setitem. intros [->|Hin]; [contradiction|].
        apply (Hfresh k); [right; exact Hk|exact Hin].
    + apply (IH _ _ Hr Hnd'). intros k Hk. apply Hfresh. right; exact Hk.
Qed.

Lemma filter_wallets_config l :
  filter Wallet.is_wallet_name
    (filter (fun n => negb (n =? config_name)) l ++ [config_name])
  = filter Wallet.is_wallet_name l.
Proof.
  rewrite filter_app. cbn [filter].
  change (Wallet.is_wallet_name config_name) with false. rewrite app_nil_r.
  induction l as [|n l IH]; cbn [filter]; [reflexivity|].
  destruct (String.eqb_spec n config_name) as [->|Hne]; cbn [negb filter].
  - change (Wallet.is_wallet_name config_name) with false. exact IH.
  - destruct (Wallet.is_wallet_name n); rewrite IH; reflexivity.
Qed.

(** X11: a save of the API keys that ends in the success dialog does not
    disturb the wallets: the next wallet number is the same before and
    after; and when the member names were distinct, the listing afterwards
    is the listing before without [api_keys.txt], in the same order,
    followed by [api_keys.txt], so that the wallet files listed and their
    count are unchanged. *)
Theorem save_api_keys_keeps_wallets self pwd now io f title message f' w :
  connected self pwd ->
  save_api_keys self now io f = (showinfo title message, f') ->
  Wallet.get_next_wallet_number w f' = Wallet.get_next_wallet_number w f
  /\ (NoDup (namelist (members f)) ->
      namelist (members f')
      = filter (fun n => negb (n =? config_name)) (namelist (members f))
        ++ [config_name]
      /\ Wallet.list_wallets w f' = Wallet.list_wallets w f
      /\ WalletManager.update_wallet_count f'
         = WalletManager.update_wallet_count f).
Proof.
  intros Hc Hs.
  destruct (save_api_keys_success _ _ _ _ _ _ _ _ Hc Hs)
    as (a & d & b & -> & Hr & Hb & ->).
  destruct (read_old_keys _ _ _ Hr) as (Hnd & Hk).
  assert (Hn : namelist (map (rewritten pwd now) d
                         ++ [Member config_name now pwd b])
               = map fst d ++ [config_name]).
  { rewrite namelist_app, namelist_rewritten. reflexivity. }
  split.
  - rewrite !get_next_wallet_number_Zip. f_equal. cbn [highest]. f_equal.
    rewrite Hn. apply fold_step_same_names. intros n.
    rewrite !filter_In, in_app_iff, Hk. cbn [In]. split.
    + intros [[[Hl _]|[<-|[]]] Hw]; [tauto|discriminate Hw].
    + intros [Hl Hw]. split; [|exact Hw]. left. split; [exact Hl|].
      intros ->. discriminate Hw.
  - cbn [members]. intros Hd.
    pose proof (read_old_order _ _ _ _ _ Hr Hd (fun n _ H => H)) as Ho.
    cbn [map app] in Ho.
    assert (Hl : namelist (map (rewritten pwd now) d
                           ++ [Member config_name now pwd b])
                 = filter (fun n => negb (n =? config_name)) (namelist a)
                   ++ [config_name]).
    { rewrite Hn, Ho. reflexivity. }
    split; [exact Hl|].
    unfold Wallet.list_wallets, WalletManager.update_wallet_count.
    cbn [open_r bind try_except]. rewrite Hl, filter_wallets_config.
    split; reflexivity.
Qed.

End SaveMore.

(** ** Concrete saves of the API keys *)

Section ConcreteSavesMore.
Import KeyMakerApp.

Lemma demo_app_connected : connected demo_app "p@ss1".
Proof.
  split; [reflexivity|]. split; [do 2 eexists; reflexivity|].
  split; [reflexivity|discriminate].
Qed.


Lemma save_api_keys_keeps_wallets_witness :
  Wallet.get_next_wallet_number demo_wallet
    (snd (save_api_keys demo_app demo_time no_fault three_wallets))
  = Wallet.get_next_wallet_number demo_wallet three_wallets.
Proof.
  assert (E : save_api_keys demo_app demo_time no_fault three_wallets
              = (showinfo "Success" "API keys saved successfully.",
                 snd (save_api_keys demo_app demo_time no_fault
                        three_wallets)))
    by (vm_compute; reflexivity).
  exact (proj1 (save_api_keys_keeps_wallets demo_app "p@ss1" demo_time
                  no_fault three_wallets _ _ _ demo_wallet
                  demo_app_connected E)).
Defined.

End ConcreteSavesMore.

(** ** [get_wallet_volume_trend]: empty charts and totals *)

Section StatsMore.
Import StatsManager.
Local Open Scope Z_scope.

(** A counting loop that ends has found a calendar date for every listed
    [.json] name. *)
Lemma count_loop_dates a : forall names d0 d,
  count_loop a names d0 = Ok d ->
  forall name, In name names -> is_json name = true ->
  exists m, getinfo a name = Ok m
            /\ datetime (info_date_time m) = Ok (info_date_time m).
Proof.
  induction names as [|n names IH]; intros d0 d H name; [intros []|].
  cbn [count_loop] in H. intros [<-|Hin] Hj.
  - unfold is_json in Hj. rewrite Hj in H.
    destruct (getinfo a n) as [m|x]; cbn [bind] in H; [|discriminate].
    destruct (datetime (info_date_time m)) as [dt|x] eqn:Ed; cbn [bind] in H;
      [|discriminate].
    exists m. split; [reflexivity|].
    rewrite <- (datetime_Ok _ _ Ed) at 2. exact Ed.
  - destruct (endswith n ".json"); [|exact (IH _ _ H _ Hin Hj)].
    destruct (getinfo a n) as [m|x]; cbn [bind] in H; [|discriminate].
    destruct (datetime (info_date_time m)) as [dt|x]; cbn [bind] in H;
      [|discriminate].
    exact (IH _ _ H _ Hin Hj).
Qed.

(** A counting loop that stops has met a listed [.json] name that is not in
    the archive or whose date is outside the calendar. *)
Lemma count_loop_Raise a : forall names d0 x,
  count_loop a names d0 = Raise x ->
  exists name, In name names /\ is_json name = true
    /\ (getinfo a name = Raise x
        \/ exists m, getinfo a name = Ok m
                     /\ datetime (info_date_time m) = Raise x).
Proof.
  induction names as [|n names IH]; intros d0 x; cbn [count_loop];
    [discriminate|].
  destruct (endswith n ".json") eqn:Ej.
  - destruct (getinfo a n) as [m|y] eqn:Eg; cbn [bind].
    + destruct (datetime (info_date_time m)) as [dt|y] eqn:Ed; cbn [bind].
      * intros H. destruct (IH _ _ H) as (name & Hin & Hn).
        exists name. split; [right; exact Hin|exact Hn].
      * intros [= ->]. exists n. split; [left; reflexivity|].
        split; [exact Ej|]. right. exists m. split; [exact Eg|exact Ed].
    + intros [= ->]. exists n. split; [left; reflexivity|].
      split; [exact Ej|]. left. exact Eg.
  - intros H. destruct (IH _ _ H) as (name & Hin & Hn).
    exists name. split; [right; exact Hin|exact Hn].
Qed.

Lemma sorted_nil l : sorted l = [] -> l = [].
Proof.
  intros H. pose proof (sorted_perm l) as Hp. rewrite H in Hp.
  apply Permutation_sym, Permutation_nil in Hp. exact Hp.
Qed.

(** X12: the chart of wallet volumes comes out empty in exactly three
    cases: the vault file cannot be opened as an archive; some listed
    [.json] member carries a date outside the calendar, which discards the
    counts of all the others too; or no [.json] name is listed. *)
Theorem volume_trend_empty self rng f :
  get_wallet_volume_trend self rng f = ([], [], []) <->
  (forall a, f = Zip a ->
     (exists name m x,
         In name (namelist a) /\ is_json name = true
         /\ getinfo a name = Ok m
         /\ datetime (info_date_time m) = Raise x)
     \/ (forall name, In name (namelist a) -> is_json name = false)).
Proof.
  split.
  - intros H a ->. revert H. unfold get_wallet_volume_trend.
    cbn [open_r bind].
    destruct (count_loop a (namelist a) []) as [d|x] eqn:E; cbn [bind].
    + intros [= Hs _ _]. right. intros name Hin.
      destruct (is_json name) eqn:Ej; [exfalso|reflexivity].
      apply sorted_nil in Hs.
      destruct (count_loop_dates _ _ _ _ E _ Hin Ej) as (m & Hg & Hd).
      assert (Hk : In (strftime (info_date_time m)) (keys d)).
      { apply (keys_counted _ _ E). exists name. split; [exact Hin|].
        unfold counted_on, date_key. unfold is_json in Ej.
        rewrite Ej, Hg, Hd. apply String.eqb_refl. }
      rewrite Hs in Hk. exact Hk.
    + intros _. left.
      destruct (count_loop_Raise _ _ _ _ E)
        as (name & Hin & Hj & [Hg|(m & Hg & Hd)]).
      * destruct (getinfo_listed _ _ Hin) as (m & Hm). congruence.
      * exists name, m, x. repeat split; assumption.
  - intros H. destruct (trend_cases self rng f)
      as [(a & d & -> & E)|Hb]; [|exact Hb].
    rewrite (trend_counted _ _ _ _ E).
    assert (Hk : keys d = []).
    { destruct (keys d) as [|k l] eqn:Ek; [reflexivity|exfalso].
      assert (Hin : In k (keys d)) by (rewrite Ek; left; reflexivity).
      apply (keys_counted _ _ E) in Hin as (name & Hin & Hc).
      unfold counted_on in Hc. apply andb_true_iff in Hc as [Hj Hc].
      destruct (H a eq_refl) as [(n & m & x & Hn & Hnj & Hg & Hd)|Hno].
      - destruct (count_loop_dates _ _ _ _ E _ Hn Hnj) as (m' & Hg' & Hd').
        congruence.
      - specialize (Hno _ Hin). unfold is_json in Hno. congruence. }
    rewrite Hk. reflexivity.
Qed.

Lemma sumZ_perm l1 l2 : Permutation l1 l2 -> sumZ l1 = sumZ l2.
Proof.
  unfold sumZ. induction 1; cbn [fold_right]; lia.
Qed.

Lemma sumZ_incr k d : sumZ (map snd (incr k d)) = sumZ (map snd d) + 1.
Proof.
  induction d as [|[k' v] d IH]; cbn [incr map snd sumZ fold_right];
    [reflexivity|].
  destruct (k' =? k)%string; cbn [map snd sumZ fold_right].
  - lia.
  - fold (sumZ (map snd (incr k d))). fold (sumZ (map snd d)). lia.
Qed.

(** The counts add up to the number of [.json] names the loop went
    through. *)
Lemma count_loop_total a : forall names d0 d,
  count_loop a names d0 = Ok d ->
  sumZ (map snd d)
  = sumZ (map snd d0) + Z.of_nat (List.length (filter is_json names)).
Proof.
  induction names as [|n names IH]; intros d0 d; cbn [count_loop filter].
  - intros [= <-]. cbn [List.length]. lia.
  - unfold is_json at 1. destruct (endswith n ".json").
    + destruct (getinfo a n) as [m|x]; cbn [bind]; [|discriminate].
      destruct (datetime (info_date_time m)) as [dt|x]; cbn [bind];
        [|discriminate].
      intros H. rewrite (IH _ _ H), sumZ_incr. cbn [List.length]. lia.
    + apply IH.
Qed.

Lemma map_get_keys d : NoDup (keys d) -> map (get d) (keys d) = map snd d.
Proof.
  induction d as [|[k v] d IH]; cbn [keys map fst snd]; [reflexivity|].
  intros Hnd. inversion Hnd as [|? ? Hk Hnd']; subst.
  cbn [get]. rewrite String.eqb_refl. f_equal.
  rewrite <- (IH Hnd'). apply map_ext_in. intros k' Hk'.
  destruct (String.eqb_spec k k') as [->|_]; [contradiction|reflexivity].
Qed.

Lemma full_split_sum rng : forall volumes i0,
  sumZ (full_split rng i0 volumes)
  + sumZ (map (fun vf => fst vf - snd vf)
            (combine volumes (full_split rng i0 volumes)))
  = sumZ volumes.
Proof.
  induction volumes as [|v vs IH]; intros i0;
    cbn [full_split combine map sumZ fold_right fst snd]; [reflexivity|].
  specialize (IH (S i0)). unfold sumZ in IH. lia.
Qed.

(** X13: whenever the chart shows at least one date, the full and empty
    counts over all dates add up to the number of [.json] names the vault
    lists (a name listed twice counts twice), whatever the random generator
    yields, and every date shown stands for at least one record. *)
Theorem volume_trend_total self rng f sorted_dates full_counts empty_counts :
  get_wallet_volume_trend self rng f
    = (sorted_dates, full_counts, empty_counts) ->
  sorted_dates <> [] ->
  sumZ full_counts + sumZ empty_counts
  = Z.of_nat (List.length (filter is_json (namelist (members f))))
  /\ forall i, (i < List.length sorted_dates)%nat ->
       1 <= nth i full_counts 0 + nth i empty_counts 0.
Proof.
  intros H Hne.
  destruct (trend_cases self rng f) as [(a & d & -> & E)|Hb].
  2:{ rewrite Hb in H. injection H as <- _ _. contradiction. }
  rewrite (trend_counted _ _ _ _ E) in H. injection H as <- <- <-.
  cbn [members].
  destruct (count_loop_spec _ _ _ _ E) as (_ & _ & Hnd).
  specialize (Hnd (NoDup_nil _)).
  split.
  - rewrite full_split_sum.
    rewrite <- (sumZ_perm _ _ (Permutation_map (get d) (sorted_perm (keys d)))).
    rewrite (map_get_keys _ Hnd), (count_loop_total _ _ _ _ E). reflexivity.
  - intros i Hi.
    pose proof (full_split_spec rng (map (get d) (sorted (keys d))) 0%nat
                  (volumes_nonneg _ _ _ E)) as Hs.
    cbv zeta in Hs. destruct Hs as (_ & _ & _ & _ & Hs).
    rewrite Hs by (rewrite length_map; exact Hi).
    rewrite (nth_indep _ 0 (get d "")) by (rewrite length_map; exact Hi).
    rewrite (map_nth (get d)).
    assert (Hin : In (nth i (sorted (keys d)) "") (keys d)).
    { apply (Permutation_in _ (Permutation_sym (sorted_perm (keys d)))).
      apply nth_In. exact Hi. }
    rewrite (get_counted _ _ E).
    apply (keys_counted _ _ E) in Hin as (name & Hin & Hc).
    assert (Hf : In name (filter (counted_on a (nth i (sorted (keys d)) ""))
                            (namelist a))).
    { apply filter_In. split; assumption. }
    destruct (filter _ (namelist a)); [destruct Hf|cbn [List.length]; lia].
Qed.

End StatsMore.

(** ** The chart after a save of the API keys *)

Section SaveThenStats.
Import KeyMakerApp StatsManager.
Local Open Scope Z_scope.

Lemma NoDup_all_eq {A} (k : A) l :
  NoDup l -> (forall x, In x l -> x = k) -> l = [] \/ l = [k].
Proof.
  intros Hnd Hall. destruct l as [|x l]; [left; reflexivity|right].
  rewrite (Hall x (or_introl eq_refl)) in *.
  destruct l as [|y l]; [reflexivity|exfalso].
  inversion Hnd as [|? ? Hk _]; subst. apply Hk. left.
  apply Hall. right; left; reflexivity.
Qed.

Lemma randint_range raw vol :
  0 <= vol -> 0 <= randint raw 0 vol <= vol.
Proof.
  intros Hv. unfold randint.
  pose proof (Z.mod_pos_bound raw (vol - 0 + 1)). lia.
Qed.

(** An archive whose members all carry one time yields at most one date. *)
Lemma trend_single_date self rng a now dates full_counts empty_counts :
  Forall (fun m => info_date_time m = now) a ->
  get_wallet_volume_trend self rng (Zip a)
    = (dates, full_counts, empty_counts) ->
  dates = []
  \/ (dates = [strftime now]
      /\ exists x y,
           full_counts = [x] /\ empty_counts = [y] /\ 0 <= x /\ 0 <= y
           /\ x + y = Z.of_nat (List.length (filter is_json (namelist a)))).
Proof.
  intros Hall H.
  destruct (trend_cases self rng (Zip a)) as [(a' & d & [= <-] & E)|Hb].
  2:{ rewrite Hb in H. injection H as <- _ _. left; reflexivity. }
  rewrite (trend_counted _ _ _ _ E) in H. injection H as <- <- <-.
  destruct (count_loop_spec _ _ _ _ E) as (_ & _ & Hnd).
  specialize (Hnd (NoDup_nil _)).
  assert (Hk : forall k, In k (keys d) -> k = strftime now).
  { intros k Hin. apply (keys_counted _ _ E) in Hin as (name & Hin & Hc).
    unfold counted_on, date_key in Hc. apply andb_true_iff in Hc as [_ Hc].
    destruct (getinfo a name) as [m|x] eqn:Eg; [|discriminate].
    destruct (datetime (info_date_time m)) as [dt|x] eqn:Ed; [|discriminate].
    apply String.eqb_eq in Hc. subst k.
    apply datetime_Ok in Ed. subst dt.
    apply getinfo_In in Eg as [Hm _].
    rewrite Forall_forall in Hall. rewrite (Hall _ Hm). reflexivity. }
  pose proof (count_loop_total _ _ _ _ E) as Ht.
  rewrite <- (map_get_keys _ Hnd) in Ht.
  destruct (NoDup_all_eq _ _ Hnd Hk) as [Ek|Ek]; rewrite Ek in *.
  - left. reflexivity.
  - right. cbn [sorted insert map full_split combine fst snd].
    split; [reflexivity|].
    cbn [map sumZ fold_right List.length] in Ht.
    assert (Hv : 0 <= get d (strftime now)) by lia.
    pose proof (randint_range (rng 0%nat) _ Hv).
    do 2 eexists. split; [reflexivity|]. split; [reflexivity|]. lia.
Qed.


End SaveThenStats.

(** ** Concrete charts *)

Section ConcreteStatsMore.
Import KeyMakerApp StatsManager.
Local Open Scope Z_scope.

Lemma volume_trend_total_witness :
  sumZ [1] + sumZ [2]
  = Z.of_nat (List.length (filter is_json (namelist (members three_wallets)))).
Proof.
  assert (E : get_wallet_volume_trend demo_stats (fun _ => 5) three_wallets
              = (["2025-01-05"%string], [1], [2]))
    by (vm_compute; reflexivity).
  assert (N : ["2025-01-05"%string] <> []) by discriminate.
  exact (proj1 (volume_trend_total demo_stats (fun _ => 5) three_wallets
                  _ _ _ E N)).
Defined.


End ConcreteStatsMore.

(** ** Saving the API keys, then showing them *)

Section SaveThenShow.
Import KeyMakerApp PyText ApiKeyFrame.

Lemma text_eqb_eq a : forall b, text_eqb a b = true <-> a = b.
Proof.
  induction a as [|x a IH]; intros [|y b]; cbn [text_eqb];
    try (split; discriminate).
  - split; reflexivity.
  - rewrite andb_true_iff, N.eqb_eq, IH.
    split; [intros [-> ->]; reflexivity|intros [= -> ->]; split; reflexivity].
Qed.

Lemma text_of_string_inj s1 : forall s2,
  text_of_string s1 = text_of_string s2 -> s1 = s2.
Proof.
  unfold text_of_string, codes.
  induction s1 as [|c1 s1 IH]; intros [|c2 s2];
    cbn [list_ascii_of_string map]; try discriminate; [reflexivity|].
  intros H. inversion H as [[Hc Hs]]. f_equal; [|apply IH; exact Hs].
  rewrite <- (ascii_N_embedding c1), <- (ascii_N_embedding c2), Hc.
  reflexivity.
Qed.

(** What [lstrip] leaves does not start with white space. *)
Lemma lstrip_list_starts l :
  match lstrip_list l with [] => True | c :: _ => isspace c = false end.
Proof.
  induction l as [|c l IH]; cbn [lstrip_list]; [exact I|].
  destruct (isspace c) eqn:E; [exact IH|exact E].
Qed.

(** [strip] of a stripped text changes nothing. *)
Lemma strip_list_idem l : strip_list (strip_list l) = strip_list l.
Proof.
  unfold strip_list.
  set (u := lstrip_list l). set (t := lstrip_list (List.rev u)).
  assert (Ht : lstrip_list t = t)
    by (apply lstrip_list_head, lstrip_list_starts).
  assert (Hr : lstrip_list (List.rev t) = List.rev t).
  { apply lstrip_list_head.
    destruct (lstrip_list_decomp (List.rev u)) as (pre & Hpre & _).
    fold t in Hpre.
    assert (Hu : u = List.rev t ++ List.rev pre).
    { rewrite <- rev_app_distr, <- Hpre, rev_involutive. reflexivity. }
    pose proof (lstrip_list_starts l) as Hs. fold u in Hs. rewrite Hu in Hs.
    destruct (List.rev t); [exact I|exact Hs]. }
  rewrite Hr, rev_involutive, Ht. reflexivity.
Qed.

Lemma strip_list_space v : strip_list (32%N :: strip_list v) = strip_list v.
Proof.
  unfold strip_list at 1. cbn [lstrip_list].
  change (isspace 32) with true. cbv iota. apply strip_list_idem.
Qed.

Lemma has_colon_line item : has_colon (line item) = true.
Proof.
  unfold has_colon, line. rewrite existsb_app.
  apply orb_true_iff. right. reflexivity.
Qed.

Lemma split_colon_app l rest :
  has_colon l = false -> split_colon (l ++ 58%N :: rest) = (l, rest).
Proof.
  unfold has_colon. induction l as [|c l IH]; cbn [existsb app split_colon].
  - intros _. reflexivity.
  - intros H. apply orb_false_iff in H as [Hc Hl].
    rewrite N.eqb_sym in Hc. rewrite Hc, (IH Hl). reflexivity.
Qed.

Lemma splitlines_from_app l : forall cur rest,
  one_line l ->
  splitlines_from cur (l ++ rest) = splitlines_from (List.rev l ++ cur) rest.
Proof.
  induction l as [|c l IH]; intros cur rest Hl; [reflexivity|].
  inversion Hl as [|? ? Hc Hl']; subst.
  cbn [app splitlines_from]. rewrite Hc, (IH _ _ Hl'). cbn [List.rev].
  rewrite <- app_assoc. reflexivity.
Qed.

Lemma join_nonempty l ls : l <> [] -> join (l :: ls) <> [].
Proof.
  intros Hl. destruct ls; cbn [join]; [exact Hl|].
  destruct l; [contradiction|discriminate].
Qed.

(** [splitlines] gives back the lines that [join] put together, when each
    is a non-empty single line. *)
Lemma splitlines_join lines :
  Forall (fun l => l <> [] /\ one_line l) lines ->
  splitlines (join lines) = lines.
Proof.
  unfold splitlines.
  induction 1 as [|l ls [Hne Hl] Hls IH]; [reflexivity|].
  destruct ls as [|l2 ls].
  - cbn [join]. rewrite <- (app_nil_r l) at 1.
    rewrite (splitlines_from_app _ _ _ Hl), app_nil_r.
    cbn [splitlines_from].
    destruct (List.rev l) eqn:E.
    + apply (f_equal (@List.rev _)) in E. rewrite rev_involutive in E.
      contradiction.
    + rewrite <- E, rev_involutive. reflexivity.
  - change (join (l :: l2 :: ls)) with (l ++ 10%N :: join (l2 :: ls)).
    rewrite (splitlines_from_app _ _ _ Hl), app_nil_r.
    cbn [splitlines_from]. change (is_linebreak 10) with true. cbv iota.
    rewrite rev_involutive. f_equal.
    inversion Hls as [|? ? [Hne2 _] _]; subst.
    pose proof (join_nonempty l2 ls Hne2) as Hj.
    destruct (join (l2 :: ls)) as [|c' s''] eqn:Ej; [contradiction|].
    change ((10 =? 13)%N) with false. cbn [andb]. exact IH.
Qed.

Lemma line_one_line item :
  plain_label (fst item) -> one_line (strip_list (snd item)) ->
  line item <> [] /\ one_line (line item).
Proof.
  intros (_ & Hl & _) Hv. unfold line. split.
  - intros H. apply app_eq_nil in H as [_ H]. discriminate H.
  - apply Forall_app. split; [exact Hl|].
    cbn [app]. constructor; [reflexivity|]. constructor; [reflexivity|].
    exact Hv.
Qed.

Lemma set_entry_at v done lbl old rest :
  ~ In lbl (map fst done) ->
  set_entry (text_of_string lbl) v (done ++ (lbl, old) :: rest)
  = done ++ (lbl, v) :: rest.
Proof.
  induction done as [|[l0 v0] done IH]; cbn [app set_entry map fst In].
  - intros _. rewrite (proj2 (text_eqb_eq _ _) eq_refl). reflexivity.
  - intros H.
    destruct (text_eqb (text_of_string l0) (text_of_string lbl)) eqn:E.
    + apply text_eqb_eq, text_of_string_inj in E.
      exfalso. apply H. left. exact E.
    + rewrite IH; [reflexivity|]. intros Hin. apply H. right. exact Hin.
Qed.

Lemma has_key_at lbl old done rest :
  has_key (text_of_string lbl) (done ++ (lbl, old) :: rest) = true.
Proof.
  unfold has_key. rewrite existsb_app. cbn [existsb fst].
  rewrite (proj2 (text_eqb_eq _ _) eq_refl).
  apply orb_true_iff. right. reflexivity.
Qed.

(** One line of the saved text sets the entry of its label. *)
Lemma load_line_at lbl v old done rest :
  plain_label lbl -> ~ In lbl (map fst done) ->
  load_line (done ++ (lbl, old) :: rest) (line (lbl, v))
  = done ++ (lbl, strip_list v) :: rest.
Proof.
  intros (Hc & _ & Hs) Hd. unfold load_line. rewrite has_colon_line.
  unfold line. cbn [fst snd app]. rewrite (split_colon_app _ _ Hc).
  cbv beta iota. rewrite Hs, strip_list_space, has_key_at.
  apply set_entry_at. exact Hd.
Qed.

Lemma load_lines : forall saved shown done,
  map fst shown = map fst saved ->
  NoDup (map fst done ++ map fst saved) ->
  Forall (fun item => plain_label (fst item)) saved ->
  fold_left load_line (map line saved) (done ++ shown)
  = done ++ map stripped saved.
Proof.
  induction saved as [|[lbl v] saved IH]; intros [|[lbl' old] shown] done;
    cbn [map fst]; try discriminate.
  - reflexivity.
  - intros [= -> Hl] Hnd Hp. inversion Hp as [|? ? Hp1 Hp']; subst.
    cbn [fold_left]. rewrite load_line_at; [|exact Hp1|].
    2:{ apply NoDup_remove_2 in Hnd. intros Hin. apply Hnd.
        apply in_or_app. left. exact Hin. }
    change (done ++ (lbl, strip_list v) :: shown)
      with (done ++ [(lbl, strip_list v)] ++ shown).
    rewrite app_assoc, IH; [|exact Hl| |exact Hp'].
    + rewrite <- app_assoc. reflexivity.
    + rewrite map_app, <- app_assoc. exact Hnd.
Qed.

Lemma show_api_key_frame_connected viewer pwd f :
  connected viewer pwd ->
  show_api_key_frame viewer f =
    match
      bind (open_r f) (fun a =>
        if Vault.mem config_name (namelist a) then
          bind (read a pwd config_name) (fun b =>
          bind (decode b) (fun data =>
            Ok (fold_left load_line (splitlines data)
                  (api_keys_entries viewer))))
        else Ok (api_keys_entries viewer))
    with
    | Ok entries' => entries'
    | Raise _ => api_keys_entries viewer
    end.
Proof.
  intros (Hc & (c & p & Hp) & Hw & Hne). unfold show_api_key_frame.
  rewrite Hc, Hp, Hw. destruct pwd; [contradiction|reflexivity].
Qed.

(** X15: what a successful save stored is what the API key frame shows
    next.  When the labels are distinct, contain no colon and no line
    boundary and have no white space at their ends, and no stripped value
    contains a line boundary, then after a save that ends in the success
    dialog, [show_api_key_frame] of an application connected under the same
    password and holding the same labels fills every entry with the
    stripped value that was saved for its label. *)
Theorem save_then_show self pwd now io f title message f' viewer :
  connected self pwd ->
  connected viewer pwd ->
  map fst (api_keys_entries viewer) = map fst (api_keys_entries self) ->
  NoDup (map fst (api_keys_entries self)) ->
  Forall (fun item => plain_label (fst item)
                      /\ one_line (strip_list (snd item)))
         (api_keys_entries self) ->
  save_api_keys self now io f = (showinfo title message, f') ->
  show_api_key_frame viewer f' = map stripped (api_keys_entries self).
Proof.
  intros Hc Hv Hl Hnd Hok Hs.
  destruct (save_api_keys_success _ _ _ _ _ _ _ _ Hc Hs)
    as (a & d & b & -> & Hr & Hb & ->).
  rewrite (show_api_key_frame_connected _ _ _ Hv). cbn [open_r bind].
  assert (Hm : Vault.mem config_name
                 (namelist (map (rewritten pwd now) d
                            ++ [Member config_name now pwd b])) = true).
  { apply mem_In. rewrite namelist_app. apply in_or_app. right. left.
    reflexivity. }
  rewrite Hm. unfold read.
  pose proof (getinfo_last (map (rewritten pwd now) d)
                (Member config_name now pwd b)) as Hg.
  cbn [filename] in Hg. rewrite Hg. cbn [bind key content].
  rewrite String.eqb_refl. cbn [bind]. unfold decode.
  rewrite (utf8_decode_encode _ _ Hb). cbn [bind].
  unfold combined. rewrite splitlines_join.
  - apply (load_lines (api_keys_entries self) (api_keys_entries viewer) []).
    + exact Hl.
    + exact Hnd.
    + eapply Forall_impl; [|exact Hok]. intros item [H _]. exact H.
  - apply Forall_forall. intros l Hin.
    apply in_map_iff in Hin as (item & <- & Hin).
    rewrite Forall_forall in Hok. destruct (Hok _ Hin) as [H1 H2].
    apply line_one_line; assumption.
Qed.

End SaveThenShow.

(** ** A concrete save and reload *)

Section ConcreteShow.
Import KeyMakerApp PyText ApiKeyFrame.

Lemma typed_app_connected : connected typed_app "p@ss1".
Proof.
  split; [reflexivity|]. split; [do 2 eexists; reflexivity|].
  split; [reflexivity|discriminate].
Qed.

Lemma blank_app_connected : connected blank_app "p@ss1".
Proof.
  split; [reflexivity|]. split; [do 2 eexists; reflexivity|].
  split; [reflexivity|discriminate].
Qed.

Lemma labels_NoDup : NoDup (map fst (api_keys_entries typed_app)).
Proof.
  change (map fst (api_keys_entries typed_app)) with labels. unfold labels.
  repeat (constructor; [cbn [In]; intuition discriminate|]). constructor.
Qed.

Lemma typed_app_plain :
  Forall (fun item => plain_label (fst item)
                      /\ one_line (strip_list (snd item)))
         (api_keys_entries typed_app).
Proof.
  unfold plain_label, one_line.
  repeat (constructor;
          [split; [split; [reflexivity|split; [|reflexivity]]|];
           vm_compute; repeat constructor|]).
  constructor.
Qed.

Lemma save_then_show_witness :
  show_api_key_frame blank_app
    (snd (save_api_keys typed_app demo_time no_fault three_wallets))
  = map stripped (api_keys_entries typed_app).
Proof.
  assert (E : save_api_keys typed_app demo_time no_fault three_wallets
              = (showinfo "Success" "API keys saved successfully.",
                 snd (save_api_keys typed_app demo_time no_fault
                        three_wallets)))
    by (vm_compute; reflexivity).
  exact (save_then_show typed_app "p@ss1" demo_time no_fault three_wallets
           _ _ _ blank_app typed_app_connected blank_app_connected eq_refl
           labels_NoDup typed_app_plain E).
Defined.

End ConcreteShow.

(** ** [connect_morpheus_wallet] *)

Section MorpheusMore.
Import KeyMakerApp Morpheus.

Variable json_loads : text -> string + value.

Local Abbreviation connect := (connect_morpheus_wallet json_loads).

(** What the checks let through. *)
Lemma checks_inr wallet_data public_address wd :
  checks wallet_data = inr (public_address, wd) <->
  wd = wallet_data
  /\ exists items account others,
       wallet_data = JDict items
       /\ lookup (text_of_string "accounts") items
          = Some (JList (JDict account :: others))
       /\ lookup (text_of_string "address") account = Some public_address.
Proof.
  split.
  - unfold checks.
    destruct wallet_data as [| | | | |l|items]; try discriminate.
    destruct (lookup (text_of_string "accounts") items) as [accounts|] eqn:El;
      [|discriminate].
    destruct (truthy accounts); cbn [negb]; [|discriminate].
    destruct accounts as [|b|z|zero|t|l|acc]; cbn [first type_name];
      try discriminate.
    + destruct t as [|c t]; [discriminate|]. cbn [has_address].
      destruct (contains _ _); discriminate.
    + destruct l as [|account others]; [discriminate|].
      destruct account as [|b|z|zero|t|l|account];
        cbn [has_address address_of type_name]; try discriminate.
      * destruct (contains _ _); discriminate.
      * destruct (existsb _ _); discriminate.
      * destruct (lookup (text_of_string "address") account) as [x|] eqn:Ea;
          [|discriminate].
        intros [= <- <-]. split; [reflexivity|].
        exists items, account, others. repeat split; assumption.
  - intros (-> & items & account & others & -> & El & Ea).
    unfold checks. rewrite El. cbn [truthy negb first has_address address_of].
    rewrite Ea. reflexivity.
Qed.


End MorpheusMore.

(** ** Saving the API keys into a Morpheus archive *)

Section SaveThenConnect.
Import KeyMakerApp Morpheus.

Variable json_loads : text -> string + value.

Lemma filter_single {A} (p : A -> bool) l n :
  NoDup l ->
  (forall x, In x l -> p x = true -> x = n) ->
  In n l -> p n = true ->
  filter p l = [n].
Proof.
  intros Hnd Hall Hin Hp.
  destruct (NoDup_all_eq n (filter p l)) as [E|E].
  - apply NoDup_filter. exact Hnd.
  - intros x Hx. apply filter_In in Hx as [Hx Hpx]. exact (Hall x Hx Hpx).
  - assert (Hf : In n (filter p l)) by (apply filter_In; split; assumption).
    rewrite E in Hf. destruct Hf.
  - exact E.
Qed.

(** A record read before the save reads the same after it. *)
Lemma read_after_save a pwd now d b name :
  read_old a pwd (namelist a) [] = Ok d ->
  In name (namelist a) -> name <> config_name ->
  read (map (rewritten pwd now) d ++ [Member config_name now pwd b]) pwd name
  = read a pwd name.
Proof.
  intros Hr Hin Hne.
  destruct (read_old_spec _ _ _ _ _ Hr (NoDup_nil _)) as (Hnd & Hs & _).
  destruct (Hs _ Hin Hne) as (x & Hx & Ha). rewrite Hx.
  unfold read. rewrite getinfo_app_other.
  2:{ repeat constructor. cbn [filename]. congruence. }
  unfold getinfo. rewrite (find_rewritten _ _ _ _ Hnd), Ha.
  cbn [option_map bind key content]. rewrite String.eqb_refl. reflexivity.
Qed.

(** X17: a save of the API keys that ends in the success dialog keeps a
    Morpheus archive connectable: when [connect_morpheus_wallet] returned
    an address and a document for the file and the password before the
    save, it returns the same for the file the save left. *)
Theorem save_api_keys_keeps_connectable self pwd now io f title message f' r :
  connected self pwd ->
  save_api_keys self now io f = (showinfo title message, f') ->
  connect_morpheus_wallet json_loads f pwd = Ok r ->
  connect_morpheus_wallet json_loads f' pwd = Ok r.
Proof.
  intros Hc Hs.
  destruct (save_api_keys_success _ _ _ _ _ _ _ _ Hc Hs)
    as (a & d & b & -> & Hr & Hb & ->).
  destruct (read_old_keys _ _ _ Hr) as (Hnd & Hk).
  unfold connect_morpheus_wallet, attempt. cbn [open_r].
  change (filter (fun n => endswith n ".json")) with (filter is_json).
  destruct (filter is_json (namelist a)) as [|name [|]] eqn:Ef;
    try discriminate.
  assert (Hn : In name (namelist a) /\ is_json name = true).
  { apply filter_In. rewrite Ef. left. reflexivity. }
  destruct Hn as [Hin Hj].
  assert (Hne : name <> config_name) by (intros ->; discriminate Hj).
  rewrite namelist_app, namelist_rewritten, filter_app.
  cbn [namelist map filename filter].
  change (is_json config_name) with false. rewrite app_nil_r.
  rewrite (filter_single is_json (map fst d) name Hnd).
  - rewrite (read_after_save _ _ _ _ _ _ Hr Hin Hne). trivial.
  - intros x Hx Hjx. apply Hk in Hx as [Hx _].
    assert (Hf : In x (filter is_json (namelist a)))
      by (apply filter_In; split; assumption).
    rewrite Ef in Hf. destruct Hf as [<-|[]]. reflexivity.
  - apply Hk. split; assumption.
  - exact Hj.
Qed.

End SaveThenConnect.

(** ** A concrete Morpheus archive *)

Section ConcreteMorpheus.
Import KeyMakerApp Morpheus.

Lemma save_api_keys_keeps_connectable_witness :
  connect_morpheus_wallet demo_loads
    (snd (save_api_keys typed_app demo_time no_fault morpheus_zip)) "p@ss1"
  = connect_morpheus_wallet demo_loads morpheus_zip "p@ss1".
Proof.
  assert (E : save_api_keys typed_app demo_time no_fault morpheus_zip
              = (showinfo "Success" "API keys saved successfully.",
                 snd (save_api_keys typed_app demo_time no_fault
                        morpheus_zip)))
    by (vm_compute; reflexivity).
  assert (C : connect_morpheus_wallet demo_loads morpheus_zip "p@ss1"
              = Ok (JStr (text_of_string "NXV7"),
                    JDict
                      [(text_of_string "accounts",
                        JList
                          [JDict
                             [(text_of_string "address",
                               JStr (text_of_string "NXV7"))]])]))
    by (vm_compute; reflexivity).
  rewrite C.
  exact (save_api_keys_keeps_connectable demo_loads typed_app "p@ss1"
           demo_time no_fault morpheus_zip _ _ _ _ typed_app_connected E C).
Defined.

End ConcreteMorpheus.

(** ** The wallet creation dialogue of the console *)

Section Dialogue.
Import ConsoleWindow.

Variable int : text -> option Z.
Variable log : text -> bool * bool -> bool * bool.

Lemma handle_prompt_sound self raw :
  waiting_sound self ->
  waiting_sound (fst (handle_prompt int log self raw))
  /\ sound_batch (snd (handle_prompt int log self raw)).
Proof.
  intros Hs. unfold handle_prompt.
  destruct (strip_list raw) as [|c u] eqn:Eu; [split; [exact Hs|exact I]|].
  set (self1 := logged log _ self).
  assert (H1 : waiting_sound self1) by exact Hs.
  destruct (cli_password_in_progress self1); [split; [exact H1|exact I]|].
  destruct (wallet_creation_in_progress self1).
  2:{ destruct (negb (morpheus_unlocked self1)); split;
        try exact H1; exact I. }
  unfold _handle_wallet_creation_flow.
  destruct (wallet_passphrase_in_progress self1) eqn:Ew.
  - cbn [fst snd]. split; [intros [=]|].
    cbn [sound_batch logged pending_wallet_count].
    split; [exact (H1 Ew)|]. split; [discriminate|].
    rewrite <- Eu. apply strip_list_idem.
  - destruct (int (c :: u)) as [count|]; [|split; [exact H1|exact I]].
    destruct (Z.gtb_spec count 0) as [Hc|Hc]; [|split; [exact H1|exact I]].
    split; [|exact I]. intros _. cbn [fst logged pending_wallet_count]. lia.
Qed.

Lemma step_sound self ev :
  waiting_sound self ->
  waiting_sound (fst (step int log self ev))
  /\ sound_batch (snd (step int log self ev)).
Proof.
  intros Hs. destruct ev as [raw| | |message]; cbn [step].
  - apply handle_prompt_sound. exact Hs.
  - split; [intros [=]|exact I].
  - split; [intros [=]|exact I].
  - split; [exact Hs|exact I].
Qed.

Lemma run_sound evs : forall self,
  waiting_sound self -> Forall sound_batch (run int log self evs).
Proof.
  induction evs as [|ev evs IH]; intros self Hs; cbn [run]; [constructor|].
  destruct (step_sound self ev Hs) as [H1 H2].
  destruct (step int log self ev) as [self' c]. cbn [fst snd] in H1, H2.
  constructor; [exact H2|exact (IH _ H1)].
Qed.


Lemma logged_quiet message self :
  leaves_flags log message -> logged log message self = self.
Proof.
  intros H. destruct self. unfold logged. cbn. rewrite H. reflexivity.
Qed.

(** A positive count typed into the open dialogue. *)
Lemma prompt_count self raw n :
  leaves_flags log (user_line raw) ->
  leaves_flags log ask_passphrase_line ->
  cli_password_in_progress self = false ->
  wallet_creation_in_progress self = true ->
  wallet_passphrase_in_progress self = false ->
  strip_list raw <> [] -> int (strip_list raw) = Some n -> (0 < n)%Z ->
  handle_prompt int log self raw =
    ({| wallet_creation_in_progress := true;
        wallet_passphrase_in_progress := true;
        pending_wallet_count := n;
        current_passphrase := current_passphrase self;
        cli_password_in_progress := false;
        morpheus_unlocked := morpheus_unlocked self |}, returned).
Proof.
  unfold user_line, ask_passphrase_line.
  intros Hu Ha Hcli Hwc Hwp Hne Hi Hn. unfold handle_prompt.
  destruct (strip_list raw) as [|c u]; [contradiction|].
  rewrite (logged_quiet _ _ Hu), Hcli, Hwc.
  unfold _handle_wallet_creation_flow.
  rewrite Hwp, Hi. apply Z.gtb_lt in Hn.
  rewrite Hn, (logged_quiet _ _ Ha), Hwc, Hcli. reflexivity.
Qed.

(** The line typed while the dialogue waits for the passphrase. *)
Lemma prompt_passphrase self raw :
  leaves_flags log (user_line raw) ->
  leaves_flags log passphrase_received_line ->
  cli_password_in_progress self = false ->
  wallet_creation_in_progress self = true ->
  wallet_passphrase_in_progress self = true ->
  strip_list raw <> [] ->
  handle_prompt int log self raw =
    ({| wallet_creation_in_progress := true;
        wallet_passphrase_in_progress := false;
        pending_wallet_count := pending_wallet_count self;
        current_passphrase := Some (strip_list raw);
        cli_password_in_progress := false;
        morpheus_unlocked := morpheus_unlocked self |},
     create_wallets (pending_wallet_count self) (strip_list raw)).
Proof.
  unfold user_line, passphrase_received_line.
  intros Hu Hr Hcli Hwc Hwp Hne. unfold handle_prompt.
  destruct (strip_list raw) as [|c u]; [contradiction|].
  rewrite (logged_quiet _ _ Hu), Hcli, Hwc.
  unfold _handle_wallet_creation_flow.
  rewrite Hwp, (logged_quiet _ _ Hr). cbn [pending_wallet_count].
  rewrite Hwc, Hcli. reflexivity.
Qed.

(** A line typed while no dialogue is open. *)
Lemma prompt_ordinary self raw :
  leaves_flags log (user_line raw) ->
  cli_password_in_progress self = false ->
  wallet_creation_in_progress self = false ->
  strip_list raw <> [] ->
  handle_prompt int log self raw =
    (self, if morpheus_unlocked self
           then respond_to_query (strip_list raw)
           else handle_flow1_input (strip_list raw)).
Proof.
  unfold user_line. intros Hu Hcli Hwc Hne. unfold handle_prompt.
  destruct (strip_list raw) as [|c u]; [contradiction|].
  rewrite (logged_quiet _ _ Hu), Hcli, Hwc.
  destruct (morpheus_unlocked self); reflexivity.
Qed.

(** X19: a batch that is still running does not close the dialogue.  With
    the dialogue open and none of the lines logged along the way touching
    the flags, a count and a passphrase start a batch, and a second count
    and passphrase typed before the first thread has ended start a second
    batch beside it.  When the first thread ends between the second count
    and its passphrase, the dialogue is reset and the line typed as the
    passphrase is handed on as an ordinary input, to the assistant if
    Morpheus is unlocked. *)
Theorem second_batch_not_refused self c1 p1 c2 p2 n1 n2 :
  Forall (leaves_flags log)
    [user_line c1; user_line p1; user_line c2; user_line p2;
     ask_passphrase_line; passphrase_received_line] ->
  cli_password_in_progress self = false ->
  wallet_creation_in_progress self = true ->
  wallet_passphrase_in_progress self = false ->
  strip_list c1 <> [] -> int (strip_list c1) = Some n1 -> (0 < n1)%Z ->
  strip_list c2 <> [] -> int (strip_list c2) = Some n2 -> (0 < n2)%Z ->
  strip_list p1 <> [] -> strip_list p2 <> [] ->
  run int log self [Prompt c1; Prompt p1; Prompt c2; Prompt p2]
  = [returned; create_wallets n1 (strip_list p1);
     returned; create_wallets n2 (strip_list p2)]
  /\ run int log self
       [Prompt c1; Prompt p1; Prompt c2; ThreadFinished; Prompt p2]
     = [returned; create_wallets n1 (strip_list p1); returned; returned;
        if morpheus_unlocked self
        then respond_to_query (strip_list p2)
        else handle_flow1_input (strip_list p2)].
Proof.
  intros Hlog Hcli Hwc Hwp Hc1 Hi1 Hn1 Hc2 Hi2 Hn2 Hp1 Hp2.
  inversion_clear Hlog as [|? ? L1 Hlog1].
  inversion_clear Hlog1 as [|? ? L2 Hlog2].
  inversion_clear Hlog2 as [|? ? L3 Hlog3].
  inversion_clear Hlog3 as [|? ? L4 Hlog4].
  inversion_clear Hlog4 as [|? ? La Hlog5].
  inversion_clear Hlog5 as [|? ? Lr _].
  cbn [run step].
  rewrite (prompt_count self c1 n1 L1 La Hcli Hwc Hwp Hc1 Hi1 Hn1).
  cbv beta iota.
  rewrite (prompt_passphrase _ p1 L2 Lr) by (reflexivity || assumption).
  cbv beta iota. cbn [pending_wallet_count].
  rewrite (prompt_count _ c2 n2 L3 La) by (reflexivity || assumption).
  cbv beta iota.
  rewrite (prompt_passphrase _ p2 L4 Lr) by (reflexivity || assumption).
  cbn [reset_wallet_creation_state cli_password_in_progress
       morpheus_unlocked pending_wallet_count].
  rewrite (prompt_ordinary _ p2 L4) by (reflexivity || assumption).
  split; reflexivity.
Qed.

End Dialogue.

(** ** A concrete dialogue *)

Section ConcreteDialogue.
Import ConsoleWindow.

Lemma second_batch_not_refused_witness :
  run ascii_int plain_log (request_wallet_creation __init__)
    [Prompt (text_of_string "2"); Prompt (text_of_string " first pass");
     Prompt (text_of_string "3 "); Prompt (text_of_string "second pass")]
  = [returned; create_wallets 2 (text_of_string "first pass");
     returned; create_wallets 3 (text_of_string "second pass")].
Proof.
  refine (proj1 (second_batch_not_refused ascii_int plain_log
                   (request_wallet_creation __init__)
                   (text_of_string "2") (text_of_string " first pass")
                   (text_of_string "3 ") (text_of_string "second pass") 2 3
                   _ eq_refl eq_refl eq_refl
                   _ eq_refl eq_refl _ eq_refl eq_refl _ _));
    try discriminate.
  repeat constructor.
Defined.

End ConcreteDialogue.

(** ** A created wallet, exported and connected *)

Section CreateThenRead.
Import Morpheus.

Variable json_dumps : Wallet.wallet_data -> text.
Variable json_loads : text -> string + value.
Variable str_other : value -> text.

Local Abbreviation create_wallet := (Wallet.create_wallet json_dumps).
Local Abbreviation export_addresses :=
  (WalletExporter.export_addresses json_loads str_other None).
Local Abbreviation export_loop :=
  (WalletExporter.export_loop json_loads str_other).
Local Abbreviation export_line := (WalletExporter.line str_other).

(** What a successful creation under a single writer stored. *)
Lemma create_wallet_stored self e passphrase w new_file w' :
  quiet e ->
  create_wallet self e passphrase w = (Ok new_file, w') ->
  exists a new_account k b,
    Wallet.vault w = Zip a
    /\ Wallet.create_new e passphrase = Ok new_account
    /\ decode (Wallet.encrypted_key new_account) = Ok k
    /\ utf8_encode
         (json_dumps
            (Wallet.build
               ("Matrix_User_" ++ str_of_int (highest (Zip a) + 1))%string
               new_account k)) = Some b
    /\ new_file = wallet_file_of (highest (Zip a) + 1)
    /\ Wallet.vault w' =
       Zip (a ++ [Member new_file (Wallet.clock e)
                    (Wallet.vault_password self) b]).
Proof.
  intros Hq. unfold Wallet.create_wallet, Wallet.get_next_wallet_number.
  destruct (Wallet.list_wallets self (Wallet.vault w)) as [names|x] eqn:El;
    cbn [bind]; [|discriminate].
  apply list_wallets_Zip in El as (a & Ea & ->).
  destruct (Wallet.create_new e passphrase) as [acct|x]; [|discriminate].
  destruct (decode (Wallet.encrypted_key acct)) as [k|x] eqn:Ek;
    [|discriminate].
  rewrite Hq, Ea.
  unfold Wallet._write_to_vault, writestr, encode_data.
  cbn [open_a entries close didModify].
  destruct (Wallet.write_error e) as [x|]; [discriminate|].
  destruct (utf8_encode _) as [b|] eqn:Eb; cbn [bind]; [|discriminate].
  destruct (Wallet.record_passphrase _ _ _ _) as [[[]|x] l]; [|discriminate].
  intros [= <- <-]. exists a, acct, k, b. cbn [Wallet.vault highest].
  repeat split; try reflexivity; assumption.
Qed.

Lemma public_address_built wallet_name new_account k :
  WalletExporter.public_address
    (document (Wallet.build wallet_name new_account k))
  = inr (JStr (text_of_string (Wallet.address new_account))).
Proof. reflexivity. Qed.

Lemma checks_built wallet_name new_account k :
  checks (document (Wallet.build wallet_name new_account k))
  = inr (JStr (text_of_string (Wallet.address new_account)),
         document (Wallet.build wallet_name new_account k)).
Proof. reflexivity. Qed.

(** Texts of 8-bit characters can be encoded. *)
Lemma encode_list_small t :
  Forall (fun c => (c < 2048)%N) t -> encode_list t <> None.
Proof.
  induction 1 as [|c t Hc _ IH]; cbn [encode_list]; [discriminate|].
  unfold encode_cp. cbv zeta.
  destruct (N.ltb_spec c 128); [|destruct (N.ltb_spec c 2048); [|lia]];
    destruct (encode_list t); try discriminate; contradiction.
Qed.

Lemma text_of_string_small s :
  Forall (fun c => (c < 2048)%N) (text_of_string s).
Proof.
  unfold text_of_string, codes.
  induction s as [|a s IH]; cbn [list_ascii_of_string map]; constructor;
    [|exact IH].
  pose proof (N_ascii_bounded a). lia.
Qed.

Lemma utf8_encode_line wallet_name addr :
  utf8_encode
    (text_of_string wallet_name ++ [58%N; 32%N] ++ text_of_string addr
     ++ [10%N]) <> None.
Proof.
  unfold utf8_encode.
  assert (H : encode_list
                (text_of_string wallet_name ++ [58%N; 32%N]
                 ++ text_of_string addr ++ [10%N]) <> None).
  { apply encode_list_small.
    repeat (apply Forall_app; split); try apply text_of_string_small;
      repeat constructor. }
  destruct (encode_list _); [discriminate|contradiction].
Qed.

Lemma is_json_wallet_file n : is_json (wallet_file_of n) = true.
Proof. unfold is_json, wallet_file_of. apply endswith_append. Qed.

(** The loop over names that the appended member does not carry goes as
    before. *)
Lemma export_loop_app a m password : forall names written,
  ~ In (filename m) names ->
  export_loop (a ++ [m]) password names written
  = export_loop a password names written.
Proof.
  induction names as [|n names IH]; intros written Hn;
    cbn [WalletExporter.export_loop]; [reflexivity|].
  assert (Hr : read (a ++ [m]) password n = read a password n).
  { unfold read. rewrite getinfo_other; [reflexivity|].
    intros E. apply Hn. left. symmetry. exact E. }
  rewrite Hr.
  destruct (bind (read a password n) decode) as [raw|x]; [|reflexivity].
  destruct (json_loads raw) as [msg|wd]; [reflexivity|].
  destruct (WalletExporter.public_address wd) as [msg|addr]; [reflexivity|].
  destruct (utf8_encode _); [|reflexivity].
  apply IH. intros Hin. apply Hn. right. exact Hin.
Qed.

Lemma export_loop_snoc a password n : forall names written written',
  export_loop a password names written = (inr tt, written') ->
  export_loop a password (names ++ [n]) written
  = export_loop a password [n] written'.
Proof.
  induction names as [|x names IH]; intros written written';
    cbn [WalletExporter.export_loop app].
  - intros [= <-]. reflexivity.
  - destruct (bind (read a password x) decode) as [raw|y]; [|discriminate].
    destruct (json_loads raw) as [msg|wd]; [discriminate|].
    destruct (WalletExporter.public_address wd) as [msg|addr];
      [discriminate|].
    destruct (utf8_encode _); [|discriminate].
    apply IH.
Qed.


(** X21: the first wallet of a vault can be connected, a second one cannot.
    When [json.loads] reads the new wallet's text back as its document and
    a creation under a single writer returned a file name, then
    [connect_morpheus_wallet] on the vault afterwards, under the vault
    password, returns the address of the new account if the vault listed no
    [.json] name before, and raises the "exactly one" error if it listed
    any. *)
Theorem create_then_connect self e passphrase w new_file w' :
  reads_back json_dumps json_loads e passphrase (Wallet.vault w) ->
  quiet e ->
  create_wallet self e passphrase w = (Ok new_file, w') ->
  exists new_account,
    Wallet.create_new e passphrase = Ok new_account
    /\ (filter is_json (namelist (members (Wallet.vault w))) = [] ->
        exists wallet_data,
          connect_morpheus_wallet json_loads (Wallet.vault w')
            (Wallet.vault_password self)
          = Ok (JStr (text_of_string (Wallet.address new_account)),
                wallet_data))
    /\ (filter is_json (namelist (members (Wallet.vault w))) <> [] ->
        connect_morpheus_wallet json_loads (Wallet.vault w')
          (Wallet.vault_password self)
        = raise RuntimeError
            "Error connecting to Morpheus wallet: Morpheus ZIP must contain exactly one .json wallet file.").
Proof.
  intros Hjson Hq Hc.
  destruct (create_wallet_stored _ _ _ _ _ _ Hq Hc)
    as (a & acct & k & b & Ea & En & Ek & Eb & -> & ->).
  specialize (Hjson acct k En Ek). cbv zeta in Hjson.
  rewrite Ea in Hjson |- *. cbn [members].
  exists acct. split; [exact En|].
  unfold connect_morpheus_wallet, attempt. cbn [open_r].
  change (filter (fun n => endswith n ".json")) with (filter is_json).
  rewrite namelist_app, filter_app. cbn [namelist map filename filter].
  rewrite is_json_wallet_file.
  set (m := Member _ _ _ b).
  split.
  - intros ->. cbn [app]. unfold read.
    pose proof (getinfo_last a m) as Hg. cbn [filename m] in Hg.
    rewrite Hg. cbn [bind key content m]. rewrite String.eqb_refl.
    cbn [bind]. unfold decode. rewrite (utf8_decode_encode _ _ Eb).
    rewrite Hjson, checks_built. eexists. reflexivity.
  - intros Hne. destruct (filter is_json (namelist a)) as [|x l];
      [contradiction|].
    destruct l; reflexivity.
Qed.

End CreateThenRead.

(** ** A concrete first wallet *)

Section ConcreteFirstWallet.
Import Morpheus.

Lemma first_wallet_reads_back :
  reads_back demo_dumps first_wallet_loads demo_env "walletpass"
    (Wallet.vault demo_world).
Proof.
  intros new_account k Hn Hk. cbv zeta.
  injection Hn as <-. vm_compute in Hk. injection Hk as <-.
  reflexivity.
Qed.


Lemma create_then_connect_witness :
  exists new_account,
    Wallet.create_new demo_env "walletpass" = Ok new_account
    /\ exists wallet_data,
         connect_morpheus_wallet first_wallet_loads
           (Wallet.vault
              (snd (Wallet.create_wallet demo_dumps demo_wallet demo_env
                      "walletpass" demo_world))) "p@ss1"
         = Ok (JStr (text_of_string (Wallet.address new_account)),
               wallet_data).
Proof.
  assert (E : Wallet.create_wallet demo_dumps demo_wallet demo_env
                "walletpass" demo_world
              = (Ok "Matrix_User_1.json",
                 snd (Wallet.create_wallet demo_dumps demo_wallet demo_env
                        "walletpass" demo_world)))
    by (vm_compute; reflexivity).
  destruct (create_then_connect demo_dumps first_wallet_loads demo_wallet
              demo_env "walletpass" demo_world _ _
              first_wallet_reads_back (fun f => eq_refl) E)
    as (new_account & Hn & Hfirst & _).
  exists new_account. split; [exact Hn|]. apply Hfirst. reflexivity.
Defined.

End ConcreteFirstWallet.

(** ** [export_addresses]: what the output file holds *)

Section ExportOutput.
Import Morpheus WalletExporter.

Variable json_loads : text -> string + value.
Variable str_other : value -> text.
Variable open_error : option string.

Lemma export_loop_items a password : forall names written res written',
  export_loop json_loads str_other a password names written
    = (res, written') ->
  exists items,
    written' = written ++ export_lines str_other items
    /\ map fst items = firstn (List.length items) names
    /\ Forall (exported json_loads a password) items
    /\ (res = inr tt <-> List.length items = List.length names).
Proof.
  induction names as [|n names IH]; intros written res written';
    cbn [export_loop].
  - intros [= <- <-]. exists []. rewrite app_nil_r.
    repeat split; constructor.
  - assert (Hstop : forall m : string,
               (inl m, written) = (res, written') ->
               exists items,
                 written' = written ++ export_lines str_other items
                 /\ map fst items = firstn (List.length items) (n :: names)
                 /\ Forall (exported json_loads a password) items
                 /\ (res = inr tt <->
                     List.length items = List.length (n :: names))).
    { intros m [= <- <-]. exists []. rewrite app_nil_r.
      repeat split; try constructor; discriminate. }
    destruct (bind (read a password n) decode) as [raw|x] eqn:Er;
      [|apply Hstop].
    destruct (json_loads raw) as [m|wd] eqn:Ej; [apply Hstop|].
    destruct (public_address wd) as [m|addr] eqn:Ea; [apply Hstop|].
    destruct (utf8_encode (line str_other n addr)); [|apply Hstop].
    intros H. destruct (IH _ _ _ H) as (items & -> & Hn & Hx & Hr).
    exists ((n, addr) :: items). unfold export_lines.
    cbn [map List.concat fst snd List.length firstn]. rewrite <- app_assoc.
    split; [reflexivity|]. split; [f_equal; exact Hn|]. split.
    + constructor; [|exact Hx]. exists raw, wd. cbn [fst snd].
      repeat split; assumption.
    + rewrite Hr. split; [intros ->; reflexivity|intros [= E]; exact E].
Qed.


End ExportOutput.

(** ** A concrete export *)

Section ConcreteExport.
Import Morpheus WalletExporter.


End ConcreteExport.
